(** * Incoming damage timeline: the classification and aggregation pipeline

    A shallow embedding of [main.py] (classes [FFLogsAPI] and
    [IncomingDamage]) and of the driver [generate_static_page.py].

    Conventions.
    - A polars column value is nullable: [option A], with [None] for null.
    - A polars boolean expression evaluates per row to [option bool] and
      follows Kleene logic; [DataFrame.filter] keeps a row only where the
      predicate is true (a null predicate drops the row).
    - [Float64] values that come from integers (elapsed seconds, medians)
      are carried as exact rationals [Q]; they are compared with
      [Qeq_bool] / [Qle_bool].
    - A [DataFrame] is the list of its rows, in row order. *)

From Stdlib Require Import ZArith QArith Qround List Bool String Ascii Lia Lqa Permutation Sorted.
From stdpp Require Import base option list gmap strings.

Local Open Scope string_scope.
Local Open Scope list_scope.

(* ================================================================== *)
(** ** The polars operations the program uses *)
(* ================================================================== *)

Module Polars.

(** [~e] *)
Definition expr_not (a : option bool) : option bool := negb <$> a.

(** [a & b] (Kleene conjunction) *)
Definition expr_and (a b : option bool) : option bool :=
  match a, b with
  | Some false, _ => Some false
  | _, Some false => Some false
  | Some true, Some true => Some true
  | _, _ => None
  end.

(** [e.is_not_null()] *)
Definition is_not_null {A} (a : option A) : option bool :=
  match a with Some _ => Some true | None => Some false end.

(** [e < c] for an integer literal [c] *)
Definition lt_lit (a : option Z) (c : Z) : option bool :=
  (fun v => (v <? c)%Z) <$> a.

(** [e == s] for a string literal [s] *)
Definition eq_lit (a : option string) (s : string) : option bool :=
  (fun v => String.eqb v s) <$> a.

(** [e.is_in(ids)] *)
Definition is_in (a : option Z) (ids : list Z) : option bool :=
  (fun v => existsb (Z.eqb v) ids) <$> a.

(** [e.list.eval(pl.element().is_in(ids)).list.any()] *)
Definition list_any_is_in (l : option (list Z)) (ids : list Z) : option bool :=
  (fun xs => existsb (fun x => existsb (Z.eqb x) ids) xs) <$> l.

(** [e.fill_null(d)] *)
Definition fill_null {A} (d : A) (a : option A) : A := default d a.

(** [pl.when(c).then(t).otherwise(e)]: a null condition takes the
    [otherwise] branch. *)
Definition when_then_otherwise {A} (c : option bool) (t e : A) : A :=
  match c with Some true => t | _ => e end.

(** [df.filter(p)] *)
Definition df_filter {A} (p : A -> option bool) (df : list A) : list A :=
  List.filter (fun r => fill_null false (p r)) df.

(** Sorting, by insertion, stable. *)
Fixpoint insert_by {A} (leb : A -> A -> bool) (x : A) (l : list A) : list A :=
  match l with
  | [] => [x]
  | y :: l' => if leb x y then x :: l else y :: insert_by leb x l'
  end.

Definition sort_by {A} (leb : A -> A -> bool) (l : list A) : list A :=
  fold_right (insert_by leb) [] l.

(** Ascending order on a nullable float column, nulls first. *)
Definition nulls_first_leb (a b : option Q) : bool :=
  match a, b with
  | None, _ => true
  | Some _, None => false
  | Some x, Some y => Qle_bool x y
  end.

(** [e.median()] over the non-null values of a group: the middle value,
    or the mean of the two middle values; null for no value. The result
    is a [Float64] and is carried as the exact rational: for integer
    values this is what polars computes as long as the values lie within
    2^51 of zero, and the theorems on aggregated amounts are stated for
    that range. *)
Definition median (xs : list Q) : option Q :=
  let s := sort_by Qle_bool xs in
  let n := length s in
  if Nat.even n then
    match s !! (n / 2 - 1)%nat, s !! (n / 2)%nat with
    | Some a, Some b => Some ((a + b) / inject_Z 2)%Q
    | _, _ => None
    end
  else s !! (n / 2)%nat.

(** [e.cast(int)] on a float: truncation toward zero. *)
Definition cast_int (q : Q) : Z := Z.quot (Qnum q) (Z.pos (Qden q)).

(** [df.group_by(key)]: the groups in order of first appearance, each
    as its first row and the rows that joined it later, in row order.
    [same r0 r] tells whether [r] has the key of the group led by [r0]. *)
Fixpoint add_to_group {A} (same : A -> A -> bool) (r : A)
    (gs : list (A * list A)) : list (A * list A) :=
  match gs with
  | [] => [(r, [])]
  | (r0, rest) :: gs' =>
      if same r0 r then (r0, rest ++ [r]) :: gs'
      else (r0, rest) :: add_to_group same r gs'
  end.

Definition group_by {A} (same : A -> A -> bool) (df : list A)
    : list (A * list A) :=
  fold_left (fun gs r => add_to_group same r gs) df [].

(** [left.join(right, on=..., how="left")] on a non-null integer key;
    [combine] builds the output row from a left row and the matching
    right row, or from no right row (nulls). *)
Definition join_left {L R O} (on_l : L -> Z) (on_r : R -> Z)
    (combine : L -> option R -> O) (left : list L) (right : list R)
    : list O :=
  flat_map
    (fun l =>
       match List.filter (fun r => (on_r r =? on_l l)%Z) right with
       | [] => [combine l None]
       | ms => map (fun r => combine l (Some r)) ms
       end)
    left.

(** [s.str.strip_chars_end(c)] for a one-character set *)
Fixpoint strip_chars_end (c : ascii) (s : string) : string :=
  match s with
  | EmptyString => EmptyString
  | String a s' =>
      match strip_chars_end c s' with
      | EmptyString =>
          if Ascii.eqb a c then EmptyString else String a EmptyString
      | t => String a t
      end
  end.

(** [s.str.split(c)] for a one-character separator *)
Fixpoint split (sep : ascii) (s : string) : list string :=
  match s with
  | EmptyString => [EmptyString]
  | String a s' =>
      if Ascii.eqb a sep then EmptyString :: split sep s'
      else match split sep s' with
           | [] => [String a EmptyString]
           | w :: ws => String a w :: ws
           end
  end.

(** [pl.from_records(records)] reads the column names off the first
    [infer_schema_length] records, the default of the call: the frame has
    the column of a key when one of these records has the key. Selecting
    a column the frame lacks raises. *)
Definition infer_schema_length : nat := 100.

Definition some_record_has {A B} (key : A -> option B) (records : list A) : bool :=
  existsb (fun r => match key r with Some _ => true | None => false end)
    (take infer_schema_length records).

(** Schemas: the column names of a frame, in order. *)
Definition has_column (c : string) (schema : list string) : bool :=
  existsb (String.eqb c) schema.

(** [df.with_columns(...)]: a named expression replaces the column of
    that name in place, or is appended. *)
Definition with_columns_schema (names schema : list string) : list string :=
  schema ++ List.filter (fun c => negb (has_column c schema)) names.

(** [left.join(right, on=key, how="left")]: the left columns, then the
    right columns other than the key, a clashing name suffixed. *)
Definition join_left_schema (key : string) (left right : list string)
    : list string :=
  left ++
  map (fun c => if has_column c left then c +:+ "_right" else c)
      (List.filter (fun c => negb (String.eqb c key)) right).

End Polars.

(** [s.lower()], on ASCII letters. *)
Definition lower_ascii (a : ascii) : ascii :=
  let n := nat_of_ascii a in
  if ((65 <=? n) && (n <=? 90))%nat then ascii_of_nat (n + 32) else a.

Fixpoint lower (s : string) : string :=
  match s with
  | EmptyString => EmptyString
  | String a s' => String (lower_ascii a) (lower s')
  end.

(** What a Python call does: it returns a value or raises. The string
    names the exception. *)
Inductive outcome (A : Type) : Type :=
| Returned (a : A)
| Raised (e : string).
Arguments Returned {A} a.
Arguments Raised {A} e.

Definition outcome_bind {A B} (m : outcome A) (k : A -> outcome B) : outcome B :=
  match m with
  | Returned a => k a
  | Raised e => Raised e
  end.

Definition raises {A} (m : outcome A) : bool :=
  match m with Returned _ => false | Raised _ => true end.

(* ================================================================== *)
(** ** class FFLogsAPI *)
(* ================================================================== *)

Module FFLogsAPI.

(** What [requests.post] does with a request: the transport fails and
    the call raises, or a response arrives with a status and a body. *)
Inductive post_result : Type :=
| PostFailed (e : string)
| Response (status_code : Z) (text : string).

Record json_payload (V : Type) : Type := {
  query : string;
  variables : V;
  operationName : string
}.
Arguments query {V} _.
Arguments variables {V} _.
Arguments operationName {V} _.

Section Query.
(** The JSON values and the decoder behind [response.json()]
    ([None]: the body is not JSON), the variables of a query, and the
    server behind [BASE_URL]. *)
Context {json V : Type}.
Variable json_loads : string -> option json.
Variable requests_post : json_payload V -> post_result.

(** [response.raise_for_status()]: HTTPError for a 4xx or 5xx status. *)
Definition raise_for_status (status_code : Z) : outcome unit :=
  if ((400 <=? status_code) && (status_code <? 600))%Z
  then Raised "HTTPError" else Returned tt.

(** [response.json()] *)
Definition response_json (text : string) : outcome json :=
  match json_loads text with
  | Some j => Returned j
  | None => Raised "JSONDecodeError"
  end.

(** The headers are fixed by [__init__]; they go with every request and
    are part of what [requests_post] stands for. *)
Definition gql_query (query : string) (variables : V)
    (operation_name : string) : outcome json :=
  let json_payload :=
    {| query := query; variables := variables;
       operationName := operation_name |} in
  match requests_post json_payload with
  | PostFailed e => Raised e
  | Response status_code text =>
      outcome_bind (raise_for_status status_code)
        (fun _ => response_json text)
  end.
End Query.

(** The response carries an unsuccessful status, 4xx or 5xx. *)
Definition error_status (r : post_result) : bool :=
  match r with
  | PostFailed _ => false
  | Response status_code _ => ((400 <=? status_code) && (status_code <? 600))%Z
  end.

End FFLogsAPI.

(* ================================================================== *)
(** ** class IncomingDamage *)
(* ================================================================== *)

(** Two operations are taken as given: the strict cast of a string to
    [Int64] ([None]: the cast fails and polars raises), and
    [format_elapsed_time], whose [Float64] floor division, remainder and
    truncation render elapsed seconds as MM:SS.sss. No property below
    depends on which digits they produce. *)
Class PolarsRuntime := {
  cast_int64 : string -> option Z;
  format_elapsed_time : Q -> string
}.

Module IncomingDamage.
Import Polars.

Definition DAMAGE_TYPE : list (Z * string) :=
  [(128%Z, "Physical"); (1024%Z, "Magical")].

Definition default_party_damage_ceiling : Z := 300000.
Definition default_tank_damage_ceiling : Z := 600000.

(** *** The API response *)

Record player := { pl_name : string; pl_id : Z; pl_icon : string }.

Record aura := { au_name : string; au_guid : Z }.

Record starting_event := { se_type : string; se_timestamp : Z }.

(** One record of [events.data]; a key the record lacks is null in the
    frame [pl.from_records] builds. Every record has its timestamp, its
    type and its ability. *)
Record raw_event := {
  ev_timestamp : Z;
  ev_type : string;
  ev_packetID : option Z;
  ev_hitType : option Z;
  ev_amount : option Z;
  ev_unmitigatedAmount : option Z;
  ev_targetID : option Z;
  ev_buffs : option string;
  ev_ability_name : string;
  ev_ability_guid : Z;
  ev_ability_type : Z
}.

(** [event_response["data"]["reportData"]["report"]]. The starting
    events are [None] when that part of the response is missing or no
    frame can be built from it. *)
Record event_response := {
  playerDetails : list (string * list player);
  buffTable_auras : list aura;
  startingEvent_data : option (list starting_event);
  events_data : list raw_event
}.

(** *** The curated category configuration

    A value of [damage_category_dict]: a dict entry (new format; [None]
    where the key is absent) or a bare category (old format). *)
Inductive metadata : Type :=
| MetaDict (md_damage_category : option string)
           (md_is_tank_damage : option bool)
           (md_ability_name : option string)
           (md_description : option string)
| MetaCategory (category : string).

Record category_row := {
  cat_ability_id : Z;
  cat_damage_category : option string;
  cat_is_tank_damage : bool;
  cat_ability_name : option string;
  cat_description : option string
}.

(** *** The damage events table *)

(** The frame before the join: the selected and the flag columns. *)
Record flagged_row := {
  fl_elapsed_seconds : Q;
  fl_packetID : option Z;
  fl_hitType : option Z;
  fl_amount : option Z;
  fl_unmitigatedAmount : option Z;
  fl_targetID : option Z;
  fl_buff_list : option (list Z);
  fl_ability_name : string;
  fl_ability_id : Z;
  fl_damage_type_id : Z;
  fl_formatted_time : string;
  fl_is_tank : bool;
  fl_is_vuln_damage : bool;
  fl_damage_type : string
}.

Record event_row := {
  elapsed_seconds : Q;
  packetID : option Z;
  hitType : option Z;
  amount : option Z;
  unmitigatedAmount : option Z;
  targetID : option Z;
  buff_list : option (list Z);
  ability_name : string;
  ability_id : Z;
  damage_type_id : Z;
  formatted_time : string;
  is_tank : bool;
  is_vuln_damage : bool;
  damage_type : string;
  damage_category : option string;
  is_tank_damage : option bool;
  ability_name_right : option string;
  description : option string;
  group_by_field : option Q
}.

(** A row of the aggregated party profile. *)
Record profile_row := {
  pr_group_by_field : option Q;
  pr_elapsed_seconds : option Q;
  pr_formatted_time : option string;
  pr_ability_name : string;
  pr_unmitigatedAmount : option Z;
  pr_description : option string;
  pr_damage_type : string;
  pr_damage_type_id : Z
}.

(** A row of the tank profile. *)
Record tank_row := {
  tk_elapsed_seconds : Q;
  tk_formatted_time : string;
  tk_ability_name : string;
  tk_unmitigatedAmount : option Z;
  tk_targetID : option Z;
  tk_description : option string;
  tk_damage_type : string;
  tk_damage_type_id : Z
}.

(** The object once [__init__] has run. *)
Record t := {
  party_damage_ceiling : Z;
  tank_damage_ceiling : Z;
  start_timestamp : Z;
  party_table : list player;
  tank_ids : list Z;
  non_tank_ids : list Z;
  vuln_ids : list Z;
  damage_category_table : list category_row;
  damage_events_table : list event_row
}.

(** *** Reading the response *)

(** The [try] block of [_get_start_timestamp]; [None]: it raised. *)
Definition limitbreak_timestamp (event_response : event_response) : option Z :=
  data ← startingEvent_data event_response;
  e ← head (df_filter (fun e => eq_lit (Some (se_type e)) "limitbreakupdate") data);
  Some (se_timestamp e).

(** [None]: the fallback raised too (there is no event at index 0). *)
Definition _get_start_timestamp (event_response : event_response) : option Z :=
  match limitbreak_timestamp event_response with
  | Some start_time => Some start_time
  | None => ev_timestamp <$> head (events_data event_response)
  end.

(** [None]: with no player at all the frame has no column to select, and
    the [select] raises. *)
Definition _get_party_table (event_response : event_response)
    : option (list player) :=
  let player_info :=
    fold_left (fun player_info roles => player_info ++ roles.2)
      (playerDetails event_response) [] in
  match player_info with
  | [] => None
  | _ => Some player_info
  end.

Definition TANKS : list string :=
  ["DarkKnight"; "Gunbreaker"; "Warrior"; "Paladin"].

Definition is_tank_icon (p : player) : bool :=
  existsb (String.eqb (pl_icon p)) TANKS.

Definition _get_role_ids (party_table : list player) : list Z * list Z :=
  (pl_id <$> List.filter is_tank_icon party_table,
   pl_id <$> List.filter (fun p => negb (is_tank_icon p)) party_table).

Definition _get_vuln_ids (event_response : event_response) : list Z :=
  let vuln_records :=
    List.filter (fun b => String.eqb (lower (au_name b)) "vulnerability up")
      (buffTable_auras event_response) in
  au_guid <$> vuln_records.

Definition category_row_of (ability_id : Z) (metadata : metadata) : category_row :=
  match metadata with
  | MetaDict damage_category is_tank_damage ability_name description =>
      {| cat_ability_id := ability_id;
         cat_damage_category := damage_category;
         cat_is_tank_damage := default false is_tank_damage;
         cat_ability_name := ability_name;
         cat_description :=
           match description with
           | Some EmptyString => None
           | d => d
           end |}
  | MetaCategory category =>
      {| cat_ability_id := ability_id;
         cat_damage_category := Some category;
         cat_is_tank_damage := false;
         cat_ability_name := None;
         cat_description := None |}
  end.

Definition _get_damage_category_table (party_damage_dict : gmap Z metadata)
    : list category_row :=
  (fun item => category_row_of item.1 item.2) <$> map_to_list party_damage_dict.

(** *** Column expressions *)

(** [None]: the cast raises. [Some None]: a null buff list. *)
Definition make_buff_list_col `{PolarsRuntime} (buffs : option string)
    : option (option (list Z)) :=
  match buffs with
  | None => Some None
  | Some s => Some <$> mapM cast_int64 (split "." (strip_chars_end "." s))
  end.

Definition flag_vuln_status (vuln_ids : list Z) (buff_list : option (list Z))
    : bool :=
  let has_vuln := list_any_is_in buff_list vuln_ids in
  fill_null false has_vuln.

Definition flag_tank_player_id (tank_ids : list Z) (targetID : option Z) : bool :=
  when_then_otherwise (is_in targetID tank_ids) true false.

(** The branches are an integer and a float column: the result is a
    float column. *)
Definition assign_group_by_field (damage_category : option string)
    (packetID : option Z) (elapsed_seconds : Q) : option Q :=
  when_then_otherwise (eq_lit damage_category "party")
    (inject_Z <$> packetID) (Some elapsed_seconds).

(** [replace_strict(DAMAGE_TYPE, default="unknown")] *)
Definition damage_type_of (damage_type_id : Z) : string :=
  match List.find (fun kv => (kv.1 =? damage_type_id)%Z) DAMAGE_TYPE with
  | Some kv => kv.2
  | None => "unknown"
  end.

(** *** [_get_damage_events_table] *)

(** The [select] and the first [with_columns], on one event. *)
Definition select_event `{PolarsRuntime} (start_timestamp : Z)
    (tank_ids vuln_ids : list Z) (e : raw_event) : option flagged_row :=
  buff_list ← make_buff_list_col (ev_buffs e);
  let elapsed_seconds :=
    (inject_Z (ev_timestamp e - start_timestamp) / inject_Z 1000)%Q in
  Some {| fl_elapsed_seconds := elapsed_seconds;
          fl_packetID := ev_packetID e;
          fl_hitType := ev_hitType e;
          fl_amount := ev_amount e;
          fl_unmitigatedAmount := ev_unmitigatedAmount e;
          fl_targetID := ev_targetID e;
          fl_buff_list := buff_list;
          fl_ability_name := ev_ability_name e;
          fl_ability_id := ev_ability_guid e;
          fl_damage_type_id := ev_ability_type e;
          fl_formatted_time := format_elapsed_time elapsed_seconds;
          fl_is_tank := flag_tank_player_id tank_ids (ev_targetID e);
          fl_is_vuln_damage := flag_vuln_status vuln_ids buff_list;
          fl_damage_type := damage_type_of (ev_ability_type e) |}.

(** The second [with_columns]: both flags once more. *)
Definition reflag (tank_ids vuln_ids : list Z) (r : flagged_row) : flagged_row :=
  {| fl_elapsed_seconds := fl_elapsed_seconds r;
     fl_packetID := fl_packetID r;
     fl_hitType := fl_hitType r;
     fl_amount := fl_amount r;
     fl_unmitigatedAmount := fl_unmitigatedAmount r;
     fl_targetID := fl_targetID r;
     fl_buff_list := fl_buff_list r;
     fl_ability_name := fl_ability_name r;
     fl_ability_id := fl_ability_id r;
     fl_damage_type_id := fl_damage_type_id r;
     fl_formatted_time := fl_formatted_time r;
     fl_is_tank := flag_tank_player_id tank_ids (fl_targetID r);
     fl_is_vuln_damage := flag_vuln_status vuln_ids (fl_buff_list r);
     fl_damage_type := fl_damage_type r |}.

(** The joined row, with its [group_by_field]. *)
Definition joined_row (r : flagged_row) (c : option category_row) : event_row :=
  let damage_category := c ≫= cat_damage_category in
  {| elapsed_seconds := fl_elapsed_seconds r;
     packetID := fl_packetID r;
     hitType := fl_hitType r;
     amount := fl_amount r;
     unmitigatedAmount := fl_unmitigatedAmount r;
     targetID := fl_targetID r;
     buff_list := fl_buff_list r;
     ability_name := fl_ability_name r;
     ability_id := fl_ability_id r;
     damage_type_id := fl_damage_type_id r;
     formatted_time := fl_formatted_time r;
     is_tank := fl_is_tank r;
     is_vuln_damage := fl_is_vuln_damage r;
     damage_type := fl_damage_type r;
     damage_category := damage_category;
     is_tank_damage := cat_is_tank_damage <$> c;
     ability_name_right := c ≫= cat_ability_name;
     description := c ≫= cat_description;
     group_by_field :=
       assign_group_by_field damage_category (fl_packetID r)
         (fl_elapsed_seconds r) |}.

(** The columns the [select] names exist: some record of [events.data] has
    each of the six keys a record may lack. In particular there is a
    record. *)
Definition selected_columns_exist (events : list raw_event) : bool :=
  some_record_has ev_packetID events && some_record_has ev_hitType events &&
  some_record_has ev_amount events &&
  some_record_has ev_unmitigatedAmount events &&
  some_record_has ev_targetID events && some_record_has ev_buffs events.

(** [None]: it raises. That is so when a selected column does not exist,
    when a buff string does not cast, and when the category table has no
    row (its key column then has no integer type to join on). *)
Definition _get_damage_events_table `{PolarsRuntime} (start_timestamp : Z)
    (tank_ids vuln_ids : list Z) (damage_category_table : list category_row)
    (event_response : event_response) : option (list event_row) :=
  let raw_damage_events_df :=
    df_filter (fun e => eq_lit (Some (ev_type e)) "damage")
      (events_data event_response) in
  if negb (selected_columns_exist (events_data event_response)) then None else
  damage_events_table ←
    mapM (select_event start_timestamp tank_ids vuln_ids) raw_damage_events_df;
  let damage_events_table := reflag tank_ids vuln_ids <$> damage_events_table in
  match damage_category_table with
  | [] => None
  | _ =>
      Some (join_left fl_ability_id cat_ability_id joined_row
              damage_events_table damage_category_table)
  end.

(** The column names of the table, by the same steps. *)
Definition damage_events_table_columns : list string :=
  let selected :=
    ["elapsed_seconds"; "packetID"; "hitType"; "amount"; "unmitigatedAmount";
     "targetID"; "buff_list"; "ability_name"; "ability_id"; "damage_type_id"] in
  let flagged :=
    with_columns_schema
      ["formatted_time"; "is_tank"; "is_vuln_damage"; "damage_type"] selected in
  let flagged := with_columns_schema ["is_tank"; "is_vuln_damage"] flagged in
  let category :=
    ["ability_id"; "damage_category"; "is_tank_damage"; "ability_name";
     "description"] in
  with_columns_schema ["group_by_field"]
    (join_left_schema "ability_id" flagged category).

(** *** [__init__], from the response on; [None]: it raises. *)
Definition __init__ `{PolarsRuntime} (damage_category_dict : gmap Z metadata)
    (event_response : event_response)
    (party_damage_ceiling tank_damage_ceiling : Z) : option t :=
  start_timestamp ← _get_start_timestamp event_response;
  party_table ← _get_party_table event_response;
  let roles := _get_role_ids party_table in
  let vuln_ids := _get_vuln_ids event_response in
  let damage_category_table := _get_damage_category_table damage_category_dict in
  damage_events_table ←
    _get_damage_events_table start_timestamp roles.1 vuln_ids
      damage_category_table event_response;
  Some {| party_damage_ceiling := party_damage_ceiling;
          tank_damage_ceiling := tank_damage_ceiling;
          start_timestamp := start_timestamp;
          party_table := party_table;
          tank_ids := roles.1;
          non_tank_ids := roles.2;
          vuln_ids := vuln_ids;
          damage_category_table := damage_category_table;
          damage_events_table := damage_events_table |}.

(** [__init__] with its first step: [fetched] is what
    [get_incoming_damage] did, the response of the query or the exception
    [gql_query] raised, which nothing catches. *)
Definition construct `{PolarsRuntime} (damage_category_dict : gmap Z metadata)
    (fetched : outcome event_response)
    (party_damage_ceiling tank_damage_ceiling : Z) : option t :=
  match fetched with
  | Raised _ => None
  | Returned event_response =>
      __init__ damage_category_dict event_response party_damage_ceiling
        tank_damage_ceiling
  end.

(** *** The profiles *)

(** Equality of group keys: nulls form one group, floats compare by
    value. *)
Definition key_eqb (a b : option Q) : bool :=
  match a, b with
  | None, None => true
  | Some x, Some y => Qeq_bool x y
  | _, _ => false
  end.

Definition same_group (r0 r : event_row) : bool :=
  key_eqb (group_by_field r0) (group_by_field r).

(** The [agg] list, on the group led by [g.1]. *)
Definition agg_group `{PolarsRuntime} (g : event_row * list event_row)
    : profile_row :=
  let rows := g.1 :: g.2 in
  {| pr_group_by_field := group_by_field g.1;
     pr_elapsed_seconds := median (elapsed_seconds <$> rows);
     pr_formatted_time :=
       format_elapsed_time <$> median (elapsed_seconds <$> rows);
     pr_ability_name := ability_name g.1;
     pr_unmitigatedAmount :=
       cast_int <$> median (inject_Z <$> omap unmitigatedAmount rows);
     pr_description := description g.1;
     pr_damage_type := damage_type g.1;
     pr_damage_type_id := damage_type_id g.1 |}.

Definition _aggregate_incoming_damage `{PolarsRuntime}
    (filtered_damage_events : list event_row) : list profile_row :=
  sort_by
    (fun a b => nulls_first_leb (pr_elapsed_seconds a) (pr_elapsed_seconds b))
    (agg_group <$> group_by same_group filtered_damage_events).

(** The frame [party_damage] of [get_incoming_damage_profile]. *)
Definition party_damage (self : t) (filter_uncategorized_damage : bool)
    : list event_row :=
  let party_damage :=
    df_filter
      (fun r =>
         expr_and
           (expr_and
              (expr_and
                 (expr_and (expr_not (Some (is_tank r)))
                    (expr_not (is_tank_damage r)))
                 (expr_not (Some (is_vuln_damage r))))
              (is_not_null (unmitigatedAmount r)))
           (lt_lit (unmitigatedAmount r) (party_damage_ceiling self)))
      (damage_events_table self) in
  if filter_uncategorized_damage
  then df_filter (fun r => is_not_null (damage_category r)) party_damage
  else party_damage.

Definition get_incoming_damage_profile `{PolarsRuntime} (self : t)
    (filter_uncategorized_damage : bool) : list profile_row :=
  _aggregate_incoming_damage (party_damage self filter_uncategorized_damage).

(** The frame [tank_damage] of [get_incoming_tank_damage_profile]. *)
Definition tank_damage (self : t) (filter_vulns : bool) : list event_row :=
  let tank_damage :=
    df_filter
      (fun r =>
         expr_and
           (expr_and
              (expr_and (Some (is_tank r)) (is_tank_damage r))
              (is_not_null (unmitigatedAmount r)))
           (lt_lit (unmitigatedAmount r) (tank_damage_ceiling self)))
      (damage_events_table self) in
  if filter_vulns
  then df_filter (fun r => expr_not (Some (is_vuln_damage r))) tank_damage
  else tank_damage.

Definition select_tank_columns (r : event_row) : tank_row :=
  {| tk_elapsed_seconds := elapsed_seconds r;
     tk_formatted_time := formatted_time r;
     tk_ability_name := ability_name r;
     tk_unmitigatedAmount := unmitigatedAmount r;
     tk_targetID := targetID r;
     tk_description := description r;
     tk_damage_type := damage_type r;
     tk_damage_type_id := damage_type_id r |}.

(** [filter_uncategorized_events] is accepted and not used. *)
Definition get_incoming_tank_damage_profile (self : t)
    (filter_uncategorized_events filter_vulns : bool) : list tank_row :=
  select_tank_columns <$> tank_damage self filter_vulns.

(** The defaults of the two methods. *)
Definition default_filter_uncategorized_damage : bool := true.
Definition default_filter_uncategorized_events : bool := true.
Definition default_filter_vulns : bool := false.

(** *** [get_damaging_ability_names_and_ids] *)

Record ability_row := {
  ab_ability_name : string;
  ab_ability_id : Z;
  ab_damage_type_id : Z
}.

#[global] Instance ability_row_eq_dec : EqDecision ability_row.
Proof. solve_decision. Defined.

Definition select_ability (r : event_row) : ability_row :=
  {| ab_ability_name := ability_name r;
     ab_ability_id := ability_id r;
     ab_damage_type_id := damage_type_id r |}.

(** [unique()] keeps one copy of each row, in no promised order; the
    sort then orders the rows by ability id. *)
Definition get_damaging_ability_names_and_ids (self : t) : list ability_row :=
  sort_by (fun a b => (ab_ability_id a <=? ab_ability_id b)%Z)
    (remove_dups (select_ability <$> damage_events_table self)).

End IncomingDamage.

(* ================================================================== *)
(** ** generate_static_page.py *)
(* ================================================================== *)

Module StaticPage.

(** An entry of [logs]. *)
Record fight_data := {
  report_id : string;
  fight_id : Z;
  party_damage : gmap Z IncomingDamage.metadata
}.

Definition dquote : string := String (ascii_of_nat 34) EmptyString.
Definition newline : string := String (ascii_of_nat 10) EmptyString.

(** [name="value"] *)
Definition attr (name value : string) : string :=
  name +:+ "=" +:+ dquote +:+ value +:+ dquote.

Section HtmlTable.
(** The values of a frame and Python's [str] on them. *)
Context {V : Type}.
Variable str : V -> string.

(** [df] is given by [df.columns] and [df.iter_rows()]; a null value is
    [None]. *)
Definition dataframe_to_html_table (columns : list string)
    (rows : list (list (option V))) (table_id : string) : string :=
  let html :=
    "<table " +:+ attr "class" "table table-striped table-hover" +:+ " " +:+
    attr "id" table_id +:+ ">" +:+ newline in
  let html := html +:+ "  <thead>" +:+ newline +:+ "    <tr>" +:+ newline in
  let html :=
    fold_left
      (fun html col => html +:+ "      <th>" +:+ col +:+ "</th>" +:+ newline)
      columns html in
  let html := html +:+ "    </tr>" +:+ newline +:+ "  </thead>" +:+ newline in
  let html := html +:+ "  <tbody>" +:+ newline in
  let html :=
    fold_left
      (fun html row =>
         let html := html +:+ "    <tr>" +:+ newline in
         let html :=
           fold_left
             (fun html value =>
                let display_value :=
                  match value with None => "" | Some v => str v end in
                html +:+ "      <td>" +:+ display_value +:+ "</td>" +:+ newline)
             row html in
         html +:+ "    </tr>" +:+ newline)
      rows html in
  html +:+ "  </tbody>" +:+ newline +:+ "</table>" +:+ newline.

End HtmlTable.

(** What the run leaves behind: the lines printed and the files written. *)
Record effects := {
  printed : list string;
  written : list (string * string)
}.

(** The loop state of [main]. *)
Record state := {
  html_content : string;
  stdout : list string
}.

Section Page.
(** The two page templates are fixed strings. A call of
    [generate_fight_section] prints some lines, then returns the section
    or raises. *)
Variable generate_html_header : string.
Variable generate_html_footer : string.
Variable generate_fight_section :
  string -> fight_data -> list string * outcome string.

Definition generate_table_of_contents (fights : list (string * fight_data))
    : string :=
  let toc_html :=
    newline +:+
    "    <div " +:+ attr "class" "fight-section" +:+ ">" +:+ newline +:+
    "        <h2 " +:+ attr "class" "fight-title" +:+ ">Quick Navigation</h2>"
      +:+ newline +:+
    "        <div " +:+ attr "class" "list-group" +:+ ">" +:+ newline in
  let toc_html :=
    fold_left
      (fun toc_html fight =>
         toc_html +:+
         "            <a " +:+ attr "href" ("#" +:+ lower fight.1) +:+ " " +:+
         attr "class" "list-group-item list-group-item-action" +:+ ">" +:+
         fight.1 +:+ "</a>" +:+ newline)
      fights toc_html in
  toc_html +:+
  "        </div>" +:+ newline +:+
  "    </div>" +:+ newline.

(** The section appended by the [except] branch. *)
Definition error_section (fight_name e : string) : string :=
  newline +:+
  "    <div " +:+ attr "class" "fight-section" +:+ " " +:+
    attr "id" (lower fight_name) +:+ ">" +:+ newline +:+
  "        <h2 " +:+ attr "class" "fight-title" +:+ ">" +:+ fight_name +:+
    "</h2>" +:+ newline +:+
  "        <div " +:+ attr "class" "alert alert-danger" +:+ " " +:+
    attr "role" "alert" +:+ ">" +:+ newline +:+
  "            Error generating data for this fight: " +:+ e +:+ newline +:+
  "        </div>" +:+ newline +:+
  "    </div>" +:+ newline.

(** One turn of the loop over [logs.items()]. *)
Definition fight_step (st : state) (fight : string * fight_data) : state :=
  let fight_name := fight.1 in
  let run := generate_fight_section fight_name fight.2 in
  match run.2 with
  | Returned section =>
      {| html_content := html_content st +:+ section;
         stdout := stdout st ++ run.1 |}
  | Raised e =>
      {| html_content := html_content st +:+ error_section fight_name e;
         stdout :=
           stdout st ++ run.1 ++
           ["Error processing " +:+ fight_name +:+ ": " +:+ e] |}
  end.

(** [os.makedirs("docs", exist_ok=True)] leaves nothing to record beside
    the file written into the directory. *)
Definition main (logs : list (string * fight_data)) : effects :=
  let st :=
    {| html_content :=
         generate_html_header +:+ generate_table_of_contents logs;
       stdout := ["Generating static HTML page..."] |} in
  let st := fold_left fight_step logs st in
  let html_content := html_content st +:+ generate_html_footer in
  let output_file := "docs/index.html" in
  {| printed := stdout st ++ ["Static page generated: " +:+ output_file];
     written := [(output_file, html_content)] |}.

(** What one fight contributes to the page. *)
Definition fight_html (fight : string * fight_data) : string :=
  match (generate_fight_section fight.1 fight.2).2 with
  | Returned section => section
  | Raised e => error_section fight.1 e
  end.

Definition fights_html (fights : list (string * fight_data)) : string :=
  fold_right (fun fight rest => fight_html fight +:+ rest) "" fights.

(** What one fight prints. *)
Definition fight_lines (fight : string * fight_data) : list string :=
  let run := generate_fight_section fight.1 fight.2 in
  run.1 ++
  match run.2 with
  | Returned _ => []
  | Raised e => ["Error processing " +:+ fight.1 +:+ ": " +:+ e]
  end.

End Page.
End StaticPage.

(* ================================================================== *)
(** ** A small fight, for evaluation *)
(* ================================================================== *)

Module Demo.
Import IncomingDamage.

(** Decimal digits, for the cast of a buff id. *)
Fixpoint parse_digits (s : string) (acc : Z) : option Z :=
  match s with
  | EmptyString => Some acc
  | String a s' =>
      let n := nat_of_ascii a in
      if ((48 <=? n) && (n <=? 57))%nat
      then parse_digits s' (10 * acc + Z.of_nat (n - 48))%Z
      else None
  end.

Definition decimal_int64 (s : string) : option Z :=
  match s with
  | EmptyString => None
  | _ => parse_digits s 0%Z
  end.

Definition digit (n : Z) : string :=
  String (ascii_of_nat (48 + Z.to_nat (n mod 10))) EmptyString.

(** MM:SS.sss of a non-negative time, in exact arithmetic. *)
Definition exact_format (q : Q) : string :=
  let ms := Qfloor (q * inject_Z 1000) in
  (digit (ms / 600000) +:+ digit (ms / 60000) +:+ ":" +:+
   digit (ms / 1000 mod 60 / 10) +:+ digit (ms / 1000 mod 60) +:+ "." +:+
   digit (ms / 100) +:+ digit (ms / 10) +:+ digit ms)%Z.

#[local] Instance runtime : PolarsRuntime :=
  {| cast_int64 := decimal_int64; format_elapsed_time := exact_format |}.

Definition players : list (string * list player) :=
  [("tanks", [{| pl_name := "Tam"; pl_id := 1; pl_icon := "Warrior" |}]);
   ("healers", [{| pl_name := "Hal"; pl_id := 2; pl_icon := "WhiteMage" |}]);
   ("dps", [{| pl_name := "Dee"; pl_id := 3; pl_icon := "Samurai" |}])].

Definition auras : list aura :=
  [{| au_name := "Vulnerability Up"; au_guid := 1001 |};
   {| au_name := "Doom"; au_guid := 1002 |}].

Definition hit (ts : Z) (type : string) (packet amount target : Z)
    (buffs : option string) (name : string) (guid kind : Z) : raw_event :=
  {| ev_timestamp := ts; ev_type := type; ev_packetID := Some packet;
     ev_hitType := Some 1%Z; ev_amount := Some amount;
     ev_unmitigatedAmount := Some amount; ev_targetID := Some target;
     ev_buffs := buffs; ev_ability_name := name; ev_ability_guid := guid;
     ev_ability_type := kind |}.

(** A raid-wide hit on both non-tanks, a tank buster on the tank while
    it carries Vulnerability Up, a hit by an ability the configuration
    does not list, a raid-wide hit on a player with a stack, and two
    simultaneous hits of an ability listed in the old format. *)
Definition events : list raw_event :=
  [hit 2000 "calculateddamage" 10 5000 2 None "Raidwide" 100 1024;
   hit 3000 "damage" 10 5000 2 None "Raidwide" 100 1024;
   hit 3050 "damage" 10 7000 3 None "Raidwide" 100 1024;
   hit 4000 "damage" 11 90000 1 (Some "1001.") "Buster" 200 128;
   hit 5000 "damage" 12 3000 2 (Some "1002.") "Unlisted" 300 128;
   hit 6000 "damage" 13 6000 3 (Some "1001.1002.") "Raidwide" 100 1024;
   hit 7000 "damage" 14 4000 2 None "Spread" 400 1024;
   hit 7000 "damage" 15 4400 3 None "Spread" 400 1024].

Definition response : event_response :=
  {| playerDetails := players;
     buffTable_auras := auras;
     startingEvent_data :=
       Some [{| se_type := "combatantinfo"; se_timestamp := 900 |};
             {| se_type := "limitbreakupdate"; se_timestamp := 1000 |}];
     events_data := events |}.

Definition config : gmap Z metadata :=
  <[100%Z := MetaDict (Some "party") (Some false) (Some "Raidwide")
               (Some "hits everyone")]>
  (<[200%Z := MetaDict (Some "tank") (Some true) (Some "Buster") None]>
  (<[400%Z := MetaCategory "spread"]> ∅)).

Definition fight : option t :=
  __init__ config response default_party_damage_ceiling
    default_tank_damage_ceiling.

(** The object [fight] builds, evaluated. *)
Definition built : t :=
  Eval vm_compute in
    match fight as o return (match o with Some _ => t | None => unit end) with
    | Some self => self
    | None => tt
    end.

(** Four rows of its table: the first raid-wide hit, the tank buster,
    the hit by the unlisted ability, and the raid-wide hit on the player
    with a stack. *)
Definition raidwide_row : event_row :=
  Eval vm_compute in
    match damage_events_table built !! 0%nat as o
          return (match o with Some _ => event_row | None => unit end) with
    | Some r => r
    | None => tt
    end.

Definition buster_row : event_row :=
  Eval vm_compute in
    match damage_events_table built !! 2%nat as o
          return (match o with Some _ => event_row | None => unit end) with
    | Some r => r
    | None => tt
    end.

Definition unlisted_row : event_row :=
  Eval vm_compute in
    match damage_events_table built !! 3%nat as o
          return (match o with Some _ => event_row | None => unit end) with
    | Some r => r
    | None => tt
    end.

Definition stacked_row : event_row :=
  Eval vm_compute in
    match damage_events_table built !! 4%nat as o
          return (match o with Some _ => event_row | None => unit end) with
    | Some r => r
    | None => tt
    end.

(** A response without a limit break update. *)
Definition response_without_limitbreak : event_response :=
  {| playerDetails := players;
     buffTable_auras := auras;
     startingEvent_data :=
       Some [{| se_type := "combatantinfo"; se_timestamp := 900 |}];
     events_data := events |}.

(** A decoder that knows the empty object only. *)
Definition decode_empty_object (text : string) : option string :=
  if String.eqb text "{}" then Some text else None.

(** Two fights; the second one fails. *)
Definition logs : list (string * StaticPage.fight_data) :=
  [("M9N", {| StaticPage.report_id := "HFK9wckdY1jCMZ27";
              StaticPage.fight_id := 41;
              StaticPage.party_damage := config |});
   ("M10N", {| StaticPage.report_id := "r6VFC3gRb4WzaDmw";
               StaticPage.fight_id := 65;
               StaticPage.party_damage := config |});
   ("M11N", {| StaticPage.report_id := "vN4py2QhT91XKLHW";
               StaticPage.fight_id := 55;
               StaticPage.party_damage := config |})].

Definition section_of (fight_name : string) (fight_data : StaticPage.fight_data)
    : list string * outcome string :=
  (["Processing " +:+ fight_name +:+ "..."],
   if String.eqb fight_name "M10N" then Raised "401 Client Error"
   else Returned ("<div>" +:+ fight_name +:+ "</div>")).

End Demo.

(* ================================================================== *)
(** ** Predicates the theorems are stated with *)
(* ================================================================== *)

Import Polars.
Import IncomingDamage.

(** The leaders of the groups lie in pairwise different groups. *)
Fixpoint distinct_leaders {A} (same : A -> A -> bool) (l : list A) : Prop :=
  match l with
  | [] => True
  | a :: l' => Forall (fun b => same a b = false) l' /\ distinct_leaders same l'
  end.

(** What [group_by] keeps true of the rows read so far. *)
Definition grouped {A} (same : A -> A -> bool) (df : list A)
    (gs : list (A * list A)) : Prop :=
  (forall g, In g gs -> g.1 :: g.2 = List.filter (same g.1) df) /\
  (forall e, In e df -> exists g, In g gs /\ same g.1 e = true) /\
  distinct_leaders same (fst <$> gs).

(** The row the table holds for a damage event. *)
Definition table_row `{PolarsRuntime} (dict : gmap Z metadata)
    (start_timestamp : Z) (tank_ids vuln_ids : list Z) (e : raw_event)
    (r : event_row) : Prop :=
  exists fl,
    select_event start_timestamp tank_ids vuln_ids e = Some fl /\
    r = joined_row (reflag tank_ids vuln_ids fl)
          (category_row_of (ev_ability_guid e) <$> dict !! ev_ability_guid e).

Definition is_damage (e : raw_event) : bool := String.eqb (ev_type e) "damage".

(** What every row of the table satisfies: the flags follow the target and
    the buff list, the joined columns follow the configuration, and the
    group key follows the category. *)
Definition row_wf (dict : gmap Z metadata) (tank_ids vuln_ids : list Z)
    (r : event_row) : Prop :=
  let c := category_row_of (ability_id r) <$> dict !! ability_id r in
  is_tank r = flag_tank_player_id tank_ids (targetID r) /\
  is_vuln_damage r = flag_vuln_status vuln_ids (buff_list r) /\
  damage_category r = c ≫= cat_damage_category /\
  is_tank_damage r = cat_is_tank_damage <$> c /\
  description r = c ≫= cat_description /\
  group_by_field r =
    assign_group_by_field (damage_category r) (packetID r) (elapsed_seconds r).

(** The condition the party profile is described by: the target is not a
    tank, the ability is not flagged as tank damage, the event is not
    flagged as vulnerability damage, the unmitigated amount is present
    and below the ceiling, and, when uncategorized damage is filtered,
    the category is present. *)
Definition party_condition (self : t) (filter_uncategorized_damage : bool)
    (r : event_row) : bool :=
  negb (is_tank r) &&
  match is_tank_damage r with Some true => false | _ => true end &&
  negb (is_vuln_damage r) &&
  match unmitigatedAmount r with
  | Some a => (a <? party_damage_ceiling self)%Z
  | None => false
  end &&
  (if filter_uncategorized_damage
   then match damage_category r with Some _ => true | None => false end
   else true).

(** A player of a tank job, by the response. *)
Definition is_tank_player (resp : event_response) (id : Z) : Prop :=
  exists role ps p,
    In (role, ps) (playerDetails resp) /\ In p ps /\
    pl_id p = id /\ In (pl_icon p) TANKS.

(** The rows the tank profile is described by: the target is a tank, the
    configuration tags the ability as tank damage, the unmitigated amount
    is present and below the ceiling, and, when [filter_vulns] is set,
    the row is not flagged as vulnerability damage. *)
Definition tank_condition (dict : gmap Z metadata) (resp : event_response)
    (ceiling : Z) (filter_vulns : bool) (r : event_row) : Prop :=
  (exists id, targetID r = Some id /\ is_tank_player resp id) /\
  (exists c n ds, dict !! ability_id r = Some (MetaDict c (Some true) n ds)) /\
  (exists a, unmitigatedAmount r = Some a /\ (a < ceiling)%Z) /\
  (filter_vulns = true -> is_vuln_damage r = false).




(** The unmitigated amounts of the events lie within 2^51 of zero. There
    every amount, every difference and every mean of two amounts is a
    [Float64] value, so the median the program computes in [Float64] is
    the exact one; beyond that range the program rounds. *)
Definition float64_exact_amounts (events : list event_row) : bool :=
  forallb
    (fun e =>
       match unmitigatedAmount e with
       | Some a => ((- 2 ^ 51 <=? a) && (a <=? 2 ^ 51))%Z
       | None => true
       end)
    events.

(** A buff string as the API writes it: every id followed by a dot. *)
Fixpoint dotted (pieces : list string) : string :=
  match pieces with
  | [] => ""
  | s :: rest => s +:+ "." +:+ dotted rest
  end.

Definition dot_free (s : string) : Prop :=
  forall a, In a (list_ascii_of_string s) -> a <> "."%char.

(** The text of one cell, one row and one header cell of an HTML table. *)
Definition cell_html {V} (str : V -> string) (value : option V) : string :=
  "      <td>" +:+ match value with None => "" | Some v => str v end +:+
  "</td>" +:+ StaticPage.newline.

Definition row_html {V} (str : V -> string) (row : list (option V)) : string :=
  "    <tr>" +:+ StaticPage.newline +:+
  fold_right (fun value rest => cell_html str value +:+ rest) "" row +:+
  "    </tr>" +:+ StaticPage.newline.

Definition header_cell_html (col : string) : string :=
  "      <th>" +:+ col +:+ "</th>" +:+ StaticPage.newline.

(** The link of one fight in the table of contents. *)
Definition toc_entry (fight_name : string) : string :=
  "            <a " +:+ StaticPage.attr "href" ("#" +:+ lower fight_name) +:+
  " " +:+ StaticPage.attr "class" "list-group-item list-group-item-action" +:+
  ">" +:+ fight_name +:+ "</a>" +:+ StaticPage.newline.

(** The placeholder the page shows for a fight whose section failed with
    the error [e], line by line. *)
Definition error_placeholder (fight_name e : string) : string :=
  let q := StaticPage.dquote in
  let nl := StaticPage.newline in
  nl +:+
  "    <div class=" +:+ q +:+ "fight-section" +:+ q +:+
    " id=" +:+ q +:+ lower fight_name +:+ q +:+ ">" +:+ nl +:+
  "        <h2 class=" +:+ q +:+ "fight-title" +:+ q +:+ ">" +:+ fight_name +:+
    "</h2>" +:+ nl +:+
  "        <div class=" +:+ q +:+ "alert alert-danger" +:+ q +:+
    " role=" +:+ q +:+ "alert" +:+ q +:+ ">" +:+ nl +:+
  "            Error generating data for this fight: " +:+ e +:+ nl +:+
  "        </div>" +:+ nl +:+
  "    </div>" +:+ nl.

(** The part of the page a list of fights is expected to give: for each
    fight in turn its section, or its placeholder when the section
    failed. *)
Definition expected_sections
    (generate_fight_section :
       string -> StaticPage.fight_data -> list string * outcome string)
    (fights : list (string * StaticPage.fight_data)) : string :=
  fold_right
    (fun fight rest =>
       match (generate_fight_section fight.1 fight.2).2 with
       | Returned section => section
       | Raised e => error_placeholder fight.1 e
       end +:+ rest)
    "" fights.

(* ================================================================== *)
(** ** Facts about the frame operations *)
(* ================================================================== *)

Lemma df_filter_In {A} (p : A -> option bool) (df : list A) (r : A) :
  In r (df_filter p df) <-> In r df /\ p r = Some true.
Proof.
  unfold df_filter. rewrite filter_In.
  destruct (p r) as [[|]|]; simpl; intuition congruence.
Qed.

Lemma df_filter_ext_in {A} (p : A -> option bool) (q : A -> bool) (df : list A) :
  (forall r, In r df -> (p r = Some true <-> q r = true)) ->
  df_filter p df = List.filter q df.
Proof.
  intros Hpq. unfold df_filter. apply List.filter_ext_in. intros r Hr.
  specialize (Hpq r Hr).
  destruct (p r) as [[|]|], (q r); simpl; try reflexivity;
    destruct Hpq as [H1 H2]; try (specialize (H1 eq_refl); discriminate);
    specialize (H2 eq_refl); discriminate.
Qed.

Lemma filter_filter_andb {A} (p q : A -> bool) (l : list A) :
  List.filter q (List.filter p l) = List.filter (fun r => p r && q r) l.
Proof.
  induction l as [|a l IH]; [reflexivity|]. simpl.
  destruct (p a); simpl; [destruct (q a)|]; rewrite ?IH; reflexivity.
Qed.

(** *** Sorting *)

Section Sorting.
Context {A : Type} (leb : A -> A -> bool).
Hypothesis leb_total : forall a b, leb a b = false -> leb b a = true.

Lemma insert_by_perm (x : A) (l : list A) :
  Permutation (insert_by leb x l) (x :: l).
Proof.
  induction l as [|y l IH]; simpl; [reflexivity|].
  destruct (leb x y); [reflexivity|].
  rewrite IH. apply perm_swap.
Qed.

Lemma sort_by_perm (l : list A) : Permutation (sort_by leb l) l.
Proof.
  induction l as [|x l IH]; simpl; [reflexivity|].
  unfold sort_by in *. simpl. rewrite insert_by_perm. now constructor.
Qed.

Lemma insert_by_hdrel (a x : A) (l : list A) :
  leb a x = true -> HdRel (fun u v => leb u v = true) a l ->
  HdRel (fun u v => leb u v = true) a (insert_by leb x l).
Proof.
  intros Hax Hal. destruct l as [|y l]; simpl; [now constructor|].
  destruct (leb x y); constructor; [assumption|].
  now inversion Hal.
Qed.

Lemma insert_by_sorted (x : A) (l : list A) :
  Sorted (fun u v => leb u v = true) l ->
  Sorted (fun u v => leb u v = true) (insert_by leb x l).
Proof.
  induction 1 as [|y l Hs IH Hhd]; simpl.
  - repeat constructor.
  - destruct (leb x y) eqn:Hxy.
    + constructor; [constructor; assumption | constructor; assumption].
    + constructor; [assumption|].
      apply insert_by_hdrel; [apply leb_total|]; assumption.
Qed.

Lemma sort_by_sorted (l : list A) :
  Sorted (fun u v => leb u v = true) (sort_by leb l).
Proof.
  induction l as [|x l IH]; [constructor|].
  unfold sort_by in *. simpl. now apply insert_by_sorted.
Qed.

End Sorting.

Lemma sorted_consecutive {A} (R : A -> A -> Prop) (l : list A) (i : nat) (a b : A) :
  Sorted R l -> l !! i = Some a -> l !! S i = Some b -> R a b.
Proof.
  intros Hs. revert i. induction Hs as [|x l Hs IH Hhd]; intros i Ha Hb.
  - discriminate.
  - destruct i as [|i]; simpl in *.
    + injection Ha as ->. destruct l as [|y l]; [discriminate|].
      simpl in Hb. injection Hb as ->. now inversion Hhd.
    + eapply IH; eassumption.
Qed.

Lemma Sorted_weaken {A} (R R' : A -> A -> Prop) (l : list A) :
  (forall a b, R a b -> R' a b) -> Sorted R l -> Sorted R' l.
Proof.
  intros HR. induction 1 as [|x l Hs IH Hhd]; constructor; [assumption|].
  destruct Hhd; constructor. now apply HR.
Qed.

Lemma Qle_bool_total (a b : Q) : Qle_bool a b = false -> Qle_bool b a = true.
Proof.
  intros H. apply Qle_bool_iff. apply Qlt_le_weak. apply Qnot_le_lt.
  intros Hle. apply Qle_bool_iff in Hle. congruence.
Qed.

Lemma nulls_first_leb_total (a b : option Q) :
  nulls_first_leb a b = false -> nulls_first_leb b a = true.
Proof.
  destruct a as [x|], b as [y|]; simpl; try congruence.
  apply Qle_bool_total.
Qed.

(** A group with a value has a median. *)
Lemma median_is_Some (xs : list Q) : xs <> [] -> is_Some (median xs).
Proof.
  intros Hne. unfold median.
  pose proof (Permutation_length (sort_by_perm Qle_bool xs)) as Hlen.
  set (s := sort_by Qle_bool xs) in *.
  assert (0 < length s)%nat as Hpos.
  { rewrite Hlen. destruct xs; [congruence | simpl; lia]. }
  destruct (Nat.even (length s)) eqn:Hev.
  - assert (2 <= length s)%nat as H2.
    { destruct (length s) as [|[|n]]; [lia | discriminate | lia]. }
    destruct (lookup_lt_is_Some_2 s (length s / 2 - 1)) as [a ->].
    { pose proof (Nat.div_lt (length s) 2). lia. }
    destruct (lookup_lt_is_Some_2 s (length s / 2)) as [b ->].
    { apply Nat.div_lt; lia. }
    eauto.
  - apply lookup_lt_is_Some_2. apply Nat.div_lt; lia.
Qed.

Lemma filter_none {A} (p : A -> bool) (l : list A) :
  (forall x, In x l -> p x = false) -> List.filter p l = [].
Proof.
  induction l as [|a l IH]; simpl; intros H; [reflexivity|].
  rewrite (H a) by now left. apply IH. intros x Hx. apply H. now right.
Qed.

(** *** Grouping *)

Section Grouping.
Context {A : Type} (same : A -> A -> bool).
Hypothesis same_refl : forall a, same a a = true.
Hypothesis same_sym : forall a b, same a b = same b a.
Hypothesis same_trans :
  forall a b c, same a b = true -> same b c = true -> same a c = true.

Lemma same_false_l (a b c : A) :
  same a b = true -> same a c = false -> same b c = false.
Proof.
  intros Hab Hac. destruct (same b c) eqn:Hbc; [|reflexivity].
  rewrite (same_trans a b c Hab Hbc) in Hac. discriminate.
Qed.

Lemma add_to_group_cases (r : A) (gs : list (A * list A)) :
  (exists g1 r0 rest g2,
      gs = g1 ++ (r0, rest) :: g2 /\ same r0 r = true /\
      Forall (fun g => same g.1 r = false) g1 /\
      add_to_group same r gs = g1 ++ (r0, rest ++ [r]) :: g2) \/
  (Forall (fun g => same g.1 r = false) gs /\
   add_to_group same r gs = gs ++ [(r, [])]).
Proof.
  induction gs as [|[r0 rest] gs IH]; simpl.
  - right. split; [constructor | reflexivity].
  - destruct (same r0 r) eqn:Hr0.
    + left. exists [], r0, rest, gs. repeat split; auto.
    + destruct IH as [(g1 & r1 & rest1 & g2 & -> & Hr1 & Hg1 & ->) | [Hall ->]].
      * left. exists ((r0, rest) :: g1), r1, rest1, g2.
        repeat split; auto.
      * right. split; [constructor; assumption | reflexivity].
Qed.

Lemma distinct_leaders_snoc (l : list A) (r : A) :
  distinct_leaders same l -> Forall (fun a => same a r = false) l ->
  distinct_leaders same (l ++ [r]).
Proof.
  induction l as [|a l IH]; simpl; intros Hd Hall.
  - split; [constructor | exact I].
  - destruct Hd as [Ha Hd]. inversion Hall as [|? ? Har Hall']; subst.
    split; [|now apply IH].
    apply Forall_app. split; [assumption | now repeat constructor].
Qed.

Lemma distinct_leaders_after (l1 l2 : list A) (a : A) :
  distinct_leaders same (l1 ++ a :: l2) -> Forall (fun b => same a b = false) l2.
Proof.
  induction l1 as [|x l1 IH]; simpl; intros [H1 H2]; [assumption | now apply IH].
Qed.

Lemma filter_snoc (p : A -> bool) (l : list A) (r : A) :
  List.filter p (l ++ [r]) = List.filter p l ++ (if p r then [r] else []).
Proof. rewrite List.filter_app. reflexivity. Qed.

Lemma grouped_step (df : list A) (gs : list (A * list A)) (r : A) :
  grouped same df gs -> grouped same (df ++ [r]) (add_to_group same r gs).
Proof.
  intros (Hrows & Hcover & Hdist).
  destruct (add_to_group_cases r gs)
    as [(g1 & r0 & rest & g2 & -> & Hr0 & Hg1 & ->) | [Hall ->]].
  - assert (Forall (fun g => same g.1 r = false) g2) as Hg2.
    { rewrite fmap_app in Hdist. simpl in Hdist.
      apply distinct_leaders_after in Hdist.
      rewrite Forall_fmap in Hdist.
      eapply Forall_impl; [exact Hdist|]. simpl. intros g Hg.
      rewrite same_sym. apply (same_false_l r0); [assumption|].
      exact Hg. }
    repeat split.
    + intros g Hg. rewrite filter_snoc.
      apply in_app_or in Hg. destruct Hg as [Hg | [<- | Hg]].
      * rewrite (proj1 (Forall_forall _ _) Hg1 g) by now apply list_elem_of_In.
        rewrite app_nil_r. apply Hrows. apply in_or_app. now left.
      * simpl. rewrite Hr0.
        pose proof (Hrows (r0, rest)) as Hg. simpl in Hg.
        rewrite <- Hg by (apply in_or_app; right; now left). reflexivity.
      * rewrite (proj1 (Forall_forall _ _) Hg2 g) by now apply list_elem_of_In.
        rewrite app_nil_r. apply Hrows. apply in_or_app. right. now right.
    + intros e He. apply in_app_or in He. destruct He as [He | [<- | []]].
      * destruct (Hcover e He) as (g & Hg & Hge).
        apply in_app_or in Hg. destruct Hg as [Hg | [<- | Hg]].
        -- exists g. split; [apply in_or_app; now left | assumption].
        -- exists (r0, rest ++ [r]).
           split; [apply in_or_app; right; now left | assumption].
        -- exists g. split; [apply in_or_app; right; now right | assumption].
      * exists (r0, rest ++ [r]).
        split; [apply in_or_app; right; now left | assumption].
    + rewrite fmap_app in *. simpl in *. exact Hdist.
  - repeat split.
    + intros g Hg. rewrite filter_snoc.
      apply in_app_or in Hg. destruct Hg as [Hg | [<- | []]].
      * rewrite (proj1 (Forall_forall _ _) Hall g) by now apply list_elem_of_In.
        rewrite app_nil_r. now apply Hrows.
      * simpl. rewrite same_refl.
        assert (List.filter (same r) df = []) as ->; [|reflexivity].
        apply filter_none. intros e He.
        destruct (Hcover e He) as (g & Hg & Hge).
        rewrite same_sym. apply (same_false_l g.1); [exact Hge|].
        apply (proj1 (Forall_forall _ _) Hall g). now apply list_elem_of_In.
    + intros e He. apply in_app_or in He. destruct He as [He | [<- | []]].
      * destruct (Hcover e He) as (g & Hg & Hge).
        exists g. split; [apply in_or_app; now left | assumption].
      * exists (r, []). split; [apply in_or_app; right; now left | apply same_refl].
    + rewrite fmap_app. simpl. apply distinct_leaders_snoc; [assumption|].
      rewrite Forall_fmap. exact Hall.
Qed.

Lemma group_by_grouped (df : list A) : grouped same df (group_by same df).
Proof.
  induction df as [|r df IH] using List.rev_ind.
  - repeat split; simpl; intros; contradiction.
  - unfold group_by in *. rewrite fold_left_app. simpl. now apply grouped_step.
Qed.



End Grouping.


(* ================================================================== *)
(** ** Facts about the damage events table *)
(* ================================================================== *)

Lemma key_eqb_refl (a : option Q) : key_eqb a a = true.
Proof. destruct a; simpl; [apply Qeq_bool_refl | reflexivity]. Qed.

Lemma key_eqb_sym (a b : option Q) : key_eqb a b = key_eqb b a.
Proof. destruct a, b; simpl; try reflexivity. apply Qeq_bool_comm. Qed.

Lemma key_eqb_trans (a b c : option Q) :
  key_eqb a b = true -> key_eqb b c = true -> key_eqb a c = true.
Proof.
  destruct a, b, c; simpl; try congruence. apply Qeq_bool_trans.
Qed.

Lemma same_group_refl (a : event_row) : same_group a a = true.
Proof. apply key_eqb_refl. Qed.

Lemma same_group_sym (a b : event_row) : same_group a b = same_group b a.
Proof. apply key_eqb_sym. Qed.

Lemma same_group_trans (a b c : event_row) :
  same_group a b = true -> same_group b c = true -> same_group a c = true.
Proof. apply key_eqb_trans. Qed.

(** *** The join against the configuration *)

Lemma cat_ability_id_of (k : Z) (md : metadata) :
  cat_ability_id (category_row_of k md) = k.
Proof. destruct md; reflexivity. Qed.

Lemma category_rows_select (L : list (Z * metadata)) (k : Z) (v : metadata) :
  NoDup L.*1 -> In (k, v) L ->
  List.filter (fun c => (cat_ability_id c =? k)%Z)
    ((fun item => category_row_of item.1 item.2) <$> L) = [category_row_of k v].
Proof.
  induction L as [|[k' v'] L IH]; simpl; intros Hnd Hin; [contradiction|].
  apply NoDup_cons in Hnd as [Hk' Hnd].
  rewrite cat_ability_id_of.
  destruct Hin as [Heq | Hin].
  - injection Heq as -> ->. rewrite Z.eqb_refl. f_equal.
    apply filter_none. intros c Hc.
    apply in_map_iff in Hc as ([k2 v2] & <- & Hc). simpl.
    rewrite cat_ability_id_of. apply Z.eqb_neq. intros ->.
    apply Hk'. apply list_elem_of_fmap. exists (k, v2).
    split; [reflexivity | now apply list_elem_of_In].
  - destruct (Z.eqb_spec k' k) as [-> | Hne]; [|now apply IH].
    exfalso. apply Hk'. apply list_elem_of_fmap. exists (k, v).
    split; [reflexivity | now apply list_elem_of_In].
Qed.

Lemma category_table_select (dict : gmap Z metadata) (k : Z) :
  List.filter (fun c => (cat_ability_id c =? k)%Z) (_get_damage_category_table dict)
  = match dict !! k with
    | Some md => [category_row_of k md]
    | None => []
    end.
Proof.
  unfold _get_damage_category_table.
  destruct (dict !! k) as [md|] eqn:Hk.
  - apply category_rows_select; [apply NoDup_fst_map_to_list|].
    apply list_elem_of_In. now apply elem_of_map_to_list.
  - apply filter_none. intros c Hc.
    apply in_map_iff in Hc as ([k2 v2] & <- & Hc). simpl.
    rewrite cat_ability_id_of. apply Z.eqb_neq. intros ->.
    apply list_elem_of_In, elem_of_map_to_list in Hc. congruence.
Qed.

(** With a dict on the right, the join is a lookup. *)
Lemma join_category_table (dict : gmap Z metadata) (left : list flagged_row) :
  join_left fl_ability_id cat_ability_id joined_row left
    (_get_damage_category_table dict)
  = (fun l => joined_row l
                (category_row_of (fl_ability_id l) <$> dict !! fl_ability_id l))
    <$> left.
Proof.
  induction left as [|l left IH]; [reflexivity|].
  unfold join_left in *. rewrite fmap_cons. cbn [flat_map].
  rewrite IH, category_table_select.
  destruct (dict !! fl_ability_id l); reflexivity.
Qed.

Section Table.
Context `{PolarsRuntime}.

Lemma select_event_ability_id start tids vids e fl :
  select_event start tids vids e = Some fl -> fl_ability_id fl = ev_ability_guid e.
Proof.
  unfold select_event. destruct (make_buff_list_col (ev_buffs e)); simpl;
    [|discriminate]. now intros [= <-].
Qed.

Lemma events_table_rows dict start tids vids resp tbl :
  _get_damage_events_table start tids vids (_get_damage_category_table dict) resp
    = Some tbl ->
  Forall2 (table_row dict start tids vids)
    (List.filter is_damage (events_data resp)) tbl.
Proof.
  unfold _get_damage_events_table.
  assert (df_filter (fun e => eq_lit (Some (ev_type e)) "damage") (events_data resp)
          = List.filter is_damage (events_data resp)) as ->.
  { apply df_filter_ext_in. intros e _. unfold is_damage. simpl.
    split; [now intros [= ->] | now intros ->]. }
  destruct (negb (selected_columns_exist (events_data resp))); [discriminate|].
  destruct (mapM _ _) as [fls|] eqn:Hm; simpl; [|discriminate].
  pose proof (join_category_table dict (reflag tids vids <$> fls)) as Hjoin.
  destruct (_get_damage_category_table dict) as [|c cs]; [discriminate|].
  rewrite Hjoin. clear Hjoin.
  intros [= <-]. apply mapM_Some in Hm.
  induction Hm as [|e fl es fls He Hm IH]; simpl; [constructor|].
  constructor; [|exact IH].
  exists fl. split; [exact He|]. simpl.
  now rewrite (select_event_ability_id _ _ _ _ _ He).
Qed.

Lemma init_fields dict resp pc tc self :
  __init__ dict resp pc tc = Some self ->
  party_damage_ceiling self = pc /\ tank_damage_ceiling self = tc /\
  _get_start_timestamp resp = Some (start_timestamp self) /\
  tank_ids self = (_get_role_ids (party_table self)).1 /\
  vuln_ids self = _get_vuln_ids resp /\
  Forall2 (table_row dict (start_timestamp self) (tank_ids self) (vuln_ids self))
    (List.filter is_damage (events_data resp)) (damage_events_table self).
Proof.
  unfold __init__.
  destruct (_get_start_timestamp resp) as [start|]; simpl; [|discriminate].
  destruct (_get_party_table resp) as [pt|]; simpl; [|discriminate].
  destruct (_get_damage_events_table _ _ _ _ _) as [tbl|] eqn:Ht; simpl;
    [|discriminate].
  intros [= <-]. simpl. repeat split. now apply events_table_rows.
Qed.

Lemma init_party_table dict resp pc tc self :
  __init__ dict resp pc tc = Some self ->
  _get_party_table resp = Some (party_table self).
Proof.
  unfold __init__.
  destruct (_get_start_timestamp resp) as [start|]; simpl; [|discriminate].
  destruct (_get_party_table resp) as [pt|]; simpl; [|discriminate].
  destruct (_get_damage_events_table _ _ _ _ _) as [tbl|]; simpl;
    [|discriminate].
  now intros [= <-].
Qed.

End Table.

Lemma table_row_wf `{PolarsRuntime} dict start tids vids e r :
  table_row dict start tids vids e r -> row_wf dict tids vids r.
Proof.
  intros (fl & Hfl & ->).
  pose proof (select_event_ability_id _ _ _ _ _ Hfl) as Hid.
  unfold row_wf. simpl. rewrite Hid. repeat split.
Qed.

Lemma init_rows_wf `{PolarsRuntime} dict resp pc tc self :
  __init__ dict resp pc tc = Some self ->
  Forall (row_wf dict (tank_ids self) (vuln_ids self)) (damage_events_table self).
Proof.
  intros Hinit. apply init_fields in Hinit as (_ & _ & _ & _ & _ & Hrows).
  induction Hrows as [|e r es rs Her _ IH]; constructor; [|exact IH].
  eapply table_row_wf; eassumption.
Qed.

(* ================================================================== *)
(** ** The two filters *)
(* ================================================================== *)

(** The rows [get_incoming_damage_profile] aggregates. *)
Lemma party_damage_In (self : t) (flag : bool) (r : event_row) :
  In r (party_damage self flag) <->
  In r (damage_events_table self) /\
  is_tank r = false /\ is_tank_damage r = Some false /\
  is_vuln_damage r = false /\
  (exists a, unmitigatedAmount r = Some a /\ (a < party_damage_ceiling self)%Z) /\
  (flag = true -> is_Some (damage_category r)).
Proof.
  unfold party_damage.
  assert (forall r,
    expr_and (expr_and (expr_and (expr_and (expr_not (Some (is_tank r)))
      (expr_not (is_tank_damage r))) (expr_not (Some (is_vuln_damage r))))
      (is_not_null (unmitigatedAmount r)))
      (lt_lit (unmitigatedAmount r) (party_damage_ceiling self)) = Some true <->
    is_tank r = false /\ is_tank_damage r = Some false /\
    is_vuln_damage r = false /\
    (exists a, unmitigatedAmount r = Some a /\ (a < party_damage_ceiling self)%Z))
    as Hpred.
  { intros x. destruct (is_tank x), (is_tank_damage x) as [[|]|],
      (is_vuln_damage x), (unmitigatedAmount x) as [a|]; simpl;
      try destruct (Z.ltb_spec a (party_damage_ceiling self)); simpl;
      (split;
       [ intros Heq; try discriminate; repeat split; eauto
       | intros (H1 & H2 & H3 & a' & H4 & H5); try discriminate;
         try congruence; try (injection H4 as <-; lia) ]). }
  destruct flag.
  - rewrite !df_filter_In, Hpred.
    destruct (damage_category r); simpl; split.
    + intros ((? & ?) & _). repeat split; try tauto. eauto.
    + intros (? & ? & ? & ? & ? & ?). tauto.
    + intros (_ & [=]).
    + intros (? & ? & ? & ? & ? & Hc). destruct (Hc eq_refl). discriminate.
  - rewrite df_filter_In, Hpred. split.
    + intros (? & ? & ? & ? & ?). repeat split; try tauto. discriminate.
    + tauto.
Qed.

(** The rows [get_incoming_tank_damage_profile] projects. *)
Lemma tank_damage_In (self : t) (filter_vulns : bool) (r : event_row) :
  In r (tank_damage self filter_vulns) <->
  In r (damage_events_table self) /\
  is_tank r = true /\ is_tank_damage r = Some true /\
  (exists a, unmitigatedAmount r = Some a /\ (a < tank_damage_ceiling self)%Z) /\
  (filter_vulns = true -> is_vuln_damage r = false).
Proof.
  unfold tank_damage.
  assert (forall r,
    expr_and (expr_and (expr_and (Some (is_tank r)) (is_tank_damage r))
      (is_not_null (unmitigatedAmount r)))
      (lt_lit (unmitigatedAmount r) (tank_damage_ceiling self)) = Some true <->
    is_tank r = true /\ is_tank_damage r = Some true /\
    (exists a, unmitigatedAmount r = Some a /\ (a < tank_damage_ceiling self)%Z))
    as Hpred.
  { intros x. destruct (is_tank x), (is_tank_damage x) as [[|]|],
      (unmitigatedAmount x) as [a|]; simpl;
      try destruct (Z.ltb_spec a (tank_damage_ceiling self)); simpl;
      (split;
       [ intros Heq; try discriminate; repeat split; eauto
       | intros (H1 & H2 & a' & H4 & H5); try discriminate;
         try congruence; try (injection H4 as <-; lia) ]). }
  destruct filter_vulns.
  - rewrite !df_filter_In, Hpred. destruct (is_vuln_damage r); simpl; split.
    + intros (_ & [=]).
    + intros (? & ? & ? & ? & Hv). specialize (Hv eq_refl). discriminate.
    + intros ((? & ?) & _). tauto.
    + intros (? & ? & ? & ? & ?). tauto.
  - rewrite df_filter_In, Hpred. split.
    + intros (? & ? & ? & ?). repeat split; try tauto. discriminate.
    + tauto.
Qed.

Lemma flag_tank_player_id_spec (tank_ids : list Z) (targetID : option Z) :
  flag_tank_player_id tank_ids targetID = true <->
  exists id, targetID = Some id /\ In id tank_ids.
Proof.
  unfold flag_tank_player_id, is_in, when_then_otherwise.
  destruct targetID as [id|]; simpl.
  - destruct (existsb (Z.eqb id) tank_ids) eqn:Hex.
    + apply existsb_exists in Hex as (x & Hx & Heq). apply Z.eqb_eq in Heq.
      subst x. split; eauto.
    + split; [discriminate|]. intros (x & [= <-] & Hin).
      assert (existsb (Z.eqb id) tank_ids = true) as Hc; [|congruence].
      apply existsb_exists. exists id. split; [assumption | apply Z.eqb_refl].
  - split; [discriminate | intros (? & [=] & _)].
Qed.

Lemma flag_vuln_status_spec (vuln_ids : list Z) (buff_list : option (list Z)) :
  flag_vuln_status vuln_ids buff_list = true <->
  exists l id, buff_list = Some l /\ In id l /\ In id vuln_ids.
Proof.
  unfold flag_vuln_status, list_any_is_in, fill_null.
  destruct buff_list as [l|]; simpl.
  - split.
    + intros Hex. apply existsb_exists in Hex as (x & Hx & Hex).
      apply existsb_exists in Hex as (y & Hy & Heq). apply Z.eqb_eq in Heq.
      subst y. eauto.
    + intros (l' & id & [= <-] & Hl & Hv). apply existsb_exists.
      exists id. split; [assumption|]. apply existsb_exists.
      exists id. split; [assumption | apply Z.eqb_refl].
  - split; [discriminate | intros (? & ? & [=] & _)].
Qed.

(* ================================================================== *)
(** ** The party profile: which events it covers *)
(* ================================================================== *)

Lemma party_condition_true (self : t) (flag : bool) (r : event_row) :
  party_condition self flag r = true <->
  is_tank r = false /\ is_tank_damage r <> Some true /\
  is_vuln_damage r = false /\
  (exists a, unmitigatedAmount r = Some a /\ (a < party_damage_ceiling self)%Z) /\
  (flag = true -> is_Some (damage_category r)).
Proof.
  unfold party_condition.
  destruct (is_tank r), (is_tank_damage r) as [[|]|], (is_vuln_damage r),
    (unmitigatedAmount r) as [a|]; simpl;
    try destruct (Z.ltb_spec a (party_damage_ceiling self)); simpl;
    try (split; [discriminate | intros (H1 & H2 & H3 & (a' & H4 & H5) & H6);
                 try discriminate; try congruence;
                 try (injection H4 as <-; lia)]).
  all: destruct flag, (damage_category r) as [c|]; simpl.
  all: split; try discriminate; try (intros _; repeat split; eauto; discriminate).
  all: intros (_ & _ & _ & _ & Hc); destruct (Hc eq_refl); discriminate.
Qed.

(** With the default [filter_uncategorized_damage=True], the profile
    covers exactly the events of that condition. *)
Lemma party_damage_default `{PolarsRuntime} dict resp pc tc self r :
  __init__ dict resp pc tc = Some self ->
  In r (damage_events_table self) ->
  (In r (party_damage self true) <-> party_condition self true r = true).
Proof.
  intros Hinit Hr. rewrite party_damage_In, party_condition_true.
  pose proof (init_rows_wf _ _ _ _ _ Hinit) as Hwf.
  rewrite Forall_forall in Hwf. apply list_elem_of_In in Hr as Hr'.
  destruct (Hwf r Hr') as (_ & _ & Hcat & Htd & _).
  split.
  - intros (_ & ? & Ht & ? & ? & ?). repeat split; auto. congruence.
  - intros (? & Ht & ? & ? & Hc). repeat split; auto.
    destruct (Hc eq_refl) as [c Hc']. rewrite Hc' in Hcat.
    rewrite Htd in *. destruct (dict !! ability_id r); simpl in *;
      [|discriminate].
    destruct (cat_is_tank_damage _); congruence.
Qed.

(** Without the filter, the events of an ability the configuration does
    not list stay out all the same. *)
Lemma party_damage_unfiltered `{PolarsRuntime} dict resp pc tc self r :
  __init__ dict resp pc tc = Some self ->
  In r (damage_events_table self) ->
  (In r (party_damage self false) <->
   party_condition self false r = true /\ is_Some (dict !! ability_id r)).
Proof.
  intros Hinit Hr. rewrite party_damage_In, party_condition_true.
  pose proof (init_rows_wf _ _ _ _ _ Hinit) as Hwf.
  rewrite Forall_forall in Hwf. apply list_elem_of_In in Hr as Hr'.
  destruct (Hwf r Hr') as (_ & _ & _ & Htd & _).
  split.
  - intros (_ & ? & Ht & ? & ? & ?). rewrite Htd in Ht.
    destruct (dict !! ability_id r) eqn:Hd; simpl in Ht; [|discriminate].
    repeat split; eauto; try discriminate. rewrite Htd. simpl. congruence.
  - intros ((? & Ht & ? & ? & _) & [md Hd]). repeat split; auto; try discriminate.
    rewrite Htd in *. rewrite Hd in *. simpl in *.
    destruct (cat_is_tank_damage _); congruence.
Qed.

(** C1, at a failing input. The fight of [Demo] has a hit by ability 300,
    which the configuration does not list: it lands on a non-tank, carries
    no vulnerability stack and its amount is below the ceiling, so it
    meets the condition of the profile without the category filter. Yet
    [get_incoming_damage_profile(filter_uncategorized_damage=False)]
    leaves it out: the join gives it a null [is_tank_damage], the
    predicate is null, and the filter drops the row. *)
Theorem unlisted_ability_dropped_without_filter :
  Demo.fight = Some Demo.built /\
  In Demo.unlisted_row (damage_events_table Demo.built) /\
  Demo.config !! ability_id Demo.unlisted_row = None /\
  party_condition Demo.built false Demo.unlisted_row = true /\
  ~ In Demo.unlisted_row (party_damage Demo.built false) /\
  Forall (fun row => pr_ability_name row <> ability_name Demo.unlisted_row)
    (get_incoming_damage_profile (H := Demo.runtime) Demo.built false).
Proof.
  split; [vm_compute; reflexivity|].
  split; [vm_compute; tauto|].
  split; [vm_compute; reflexivity|].
  split; [vm_compute; reflexivity|]. split.
  - intros Hin. apply party_damage_In in Hin as (_ & _ & Ht & _).
    discriminate Ht.
  - apply Forall_forall. intros row Hin. apply list_elem_of_In in Hin.
    vm_compute in Hin. destruct Hin as [<- | [<- | []]]; discriminate.
Qed.

(* ================================================================== *)
(** ** Vulnerability damage *)
(* ================================================================== *)

(** The ids [_get_vuln_ids] returns are those of the debuffs named
    Vulnerability Up, in any letter case. *)
Lemma vuln_ids_spec (resp : event_response) (id : Z) :
  In id (_get_vuln_ids resp) <->
  exists a, In a (buffTable_auras resp) /\
            lower (au_name a) = "vulnerability up" /\ au_guid a = id.
Proof.
  unfold _get_vuln_ids. rewrite in_map_iff. split.
  - intros (a & <- & Ha). apply filter_In in Ha as [Ha Hn].
    apply String.eqb_eq in Hn. eauto.
  - intros (a & Ha & Hn & <-). exists a. split; [reflexivity|].
    apply filter_In. split; [assumption|]. now apply String.eqb_eq.
Qed.

(** C2, as the code has it. An event whose buff list holds the id of a
    Vulnerability Up debuff is flagged as vulnerability damage; it is in
    no row set the party profile aggregates, whatever the category
    filter, and it is not in the tank profile when [filter_vulns] is
    True. *)
Theorem vuln_damage_excluded `{PolarsRuntime} dict resp pc tc self r :
  __init__ dict resp pc tc = Some self ->
  In r (damage_events_table self) ->
  (exists l a, buff_list r = Some l /\ In (au_guid a) l /\
               In a (buffTable_auras resp) /\
               lower (au_name a) = "vulnerability up") ->
  is_vuln_damage r = true /\
  (forall flag, ~ In r (party_damage self flag)) /\
  ~ In r (tank_damage self true).
Proof.
  intros Hinit Hr (l & a & Hl & Hal & Ha & Hn).
  pose proof (init_rows_wf _ _ _ _ _ Hinit) as Hwf.
  rewrite Forall_forall in Hwf. apply list_elem_of_In in Hr as Hr'.
  destruct (Hwf r Hr') as (_ & Hv & _).
  apply init_fields in Hinit as (_ & _ & _ & _ & Hvids & _).
  assert (is_vuln_damage r = true) as Hvuln.
  { rewrite Hv. apply flag_vuln_status_spec. exists l, (au_guid a).
    repeat split; [assumption.. |]. rewrite Hvids. apply vuln_ids_spec. eauto. }
  split; [exact Hvuln|]. split.
  - intros flag Hin. apply party_damage_In in Hin as (_ & _ & _ & Hc & _).
    congruence.
  - intros Hin. apply tank_damage_In in Hin as (_ & _ & _ & _ & Hc).
    specialize (Hc eq_refl). congruence.
Qed.

Lemma vuln_damage_excluded_demo :
  is_vuln_damage Demo.stacked_row = true /\
  (forall flag, ~ In Demo.stacked_row (party_damage Demo.built flag)) /\
  ~ In Demo.stacked_row (tank_damage Demo.built true).
Proof.
  assert (Demo.fight = Some Demo.built) as Hinit by (vm_compute; reflexivity).
  assert (In Demo.stacked_row (damage_events_table Demo.built)) as Hr
    by (vm_compute; tauto).
  assert (exists l a, buff_list Demo.stacked_row = Some l /\ In (au_guid a) l /\
                      In a (buffTable_auras Demo.response) /\
                      lower (au_name a) = "vulnerability up") as Hb.
  { exists [1001%Z; 1002%Z], {| au_name := "Vulnerability Up"; au_guid := 1001 |}.
    vm_compute. repeat split; auto. }
  destruct (vuln_damage_excluded (H := Demo.runtime) Demo.config Demo.response
              default_party_damage_ceiling default_tank_damage_ceiling
              Demo.built Demo.stacked_row Hinit Hr Hb) as (Hv & Hp & Ht).
  repeat split; assumption.
Defined.

(** C2 fails as stated. The tank buster of [Demo] hits the tank while it
    carries Vulnerability Up (buff id 1001): the row is flagged as
    vulnerability damage, and [get_incoming_tank_damage_profile()] with
    its defaults (filter_vulns=False) returns it. *)
Lemma vuln_damage_in_default_tank_profile :
  Demo.fight = Some Demo.built /\
  In Demo.buster_row (damage_events_table Demo.built) /\
  buff_list Demo.buster_row = Some [1001%Z] /\
  In 1001%Z (vuln_ids Demo.built) /\
  is_vuln_damage Demo.buster_row = true /\
  In Demo.buster_row (tank_damage Demo.built default_filter_vulns) /\
  In (select_tank_columns Demo.buster_row)
    (get_incoming_tank_damage_profile Demo.built
       default_filter_uncategorized_events default_filter_vulns).
Proof.
  repeat split; try (vm_compute; reflexivity); vm_compute; tauto.
Qed.

(** C10. A damage event without a [buffs] field gets a null buff list and
    is flagged as not vulnerability damage; whether its row is in the row
    set of the party profile then depends on the other conditions only. *)
Theorem null_buffs_not_vuln `{PolarsRuntime} dict resp pc tc self i e r :
  __init__ dict resp pc tc = Some self ->
  List.filter is_damage (events_data resp) !! i = Some e ->
  damage_events_table self !! i = Some r ->
  ev_buffs e = None ->
  buff_list r = None /\ is_vuln_damage r = false /\
  forall flag,
    In r (party_damage self flag) <->
    is_tank r = false /\ is_tank_damage r = Some false /\
    (exists a, unmitigatedAmount r = Some a /\ (a < pc)%Z) /\
    (flag = true -> is_Some (damage_category r)).
Proof.
  intros Hinit He Hr Hbuffs.
  apply init_fields in Hinit as (Hpc & _ & _ & _ & _ & Hrows).
  destruct (Forall2_lookup_lr _ _ _ _ _ _ Hrows He Hr) as (fl & Hfl & ->).
  unfold select_event in Hfl. rewrite Hbuffs in Hfl. simpl in Hfl.
  injection Hfl as <-. simpl.
  split; [reflexivity|]. split; [reflexivity|].
  intros flag. rewrite party_damage_In, Hpc. simpl. split.
  - intros (_ & ? & ? & _ & ? & ?). auto.
  - intros (? & ? & ? & ?). repeat split; auto.
    eapply list_elem_of_In, list_elem_of_lookup_2. exact Hr.
Qed.

Lemma null_buffs_not_vuln_demo :
  buff_list Demo.raidwide_row = None /\
  is_vuln_damage Demo.raidwide_row = false /\
  In Demo.raidwide_row (party_damage Demo.built true).
Proof.
  assert (Demo.fight = Some Demo.built) as Hinit by (vm_compute; reflexivity).
  assert (List.filter is_damage (events_data Demo.response) !! 0%nat
          = Some (Demo.hit 3000 "damage" 10 5000 2 None "Raidwide" 100 1024))
    as He by reflexivity.
  assert (damage_events_table Demo.built !! 0%nat = Some Demo.raidwide_row)
    as Hr by reflexivity.
  destruct (null_buffs_not_vuln (H := Demo.runtime) Demo.config Demo.response
              default_party_damage_ceiling default_tank_damage_ceiling
              Demo.built 0%nat _ _ Hinit He Hr eq_refl) as (Hb & Hv & Hin).
  split; [exact Hb|]. split; [exact Hv|].
  apply Hin. split; [reflexivity|]. split; [reflexivity|].
  split; [exists 5000%Z; split; reflexivity|].
  intros _. eexists. reflexivity.
Defined.

(* ================================================================== *)
(** ** The tank profile *)
(* ================================================================== *)

Lemma party_table_In (resp : event_response) (pt : list player) (p : player) :
  _get_party_table resp = Some pt ->
  (In p pt <->
   exists role ps, In (role, ps) (playerDetails resp) /\ In p ps).
Proof.
  unfold _get_party_table. intros Hpt.
  assert (pt = fold_left (fun acc (roles : string * list player) =>
                            acc ++ roles.2) (playerDetails resp) []) as ->.
  { destruct (fold_left _ (playerDetails resp) []); congruence. }
  clear Hpt.
  assert (forall l init,
            In p (fold_left (fun acc (roles : string * list player) =>
                               acc ++ roles.2) l init) <->
            In p init \/ exists role ps, In (role, ps) l /\ In p ps) as Hfold.
  { induction l as [|[role ps] l IH]; intros init; simpl.
    - split; [auto | intros [? | (? & ? & [] & _)]; assumption].
    - rewrite IH, in_app_iff. split.
      + intros [[? | ?] | (role' & ps' & ? & ?)]; eauto 8.
      + intros [? | (role' & ps' & [[= <- <-] | ?] & ?)]; eauto 8. }
  rewrite Hfold. simpl. split; [intros [[] | ?]; assumption | auto].
Qed.

Lemma tank_ids_spec `{PolarsRuntime} dict resp pc tc self id :
  __init__ dict resp pc tc = Some self ->
  (In id (tank_ids self) <-> is_tank_player resp id).
Proof.
  intros Hinit. pose proof (init_party_table _ _ _ _ _ Hinit) as Hpt.
  apply init_fields in Hinit as (_ & _ & _ & -> & _).
  unfold _get_role_ids, is_tank_player. simpl. rewrite in_map_iff. split.
  - intros (p & <- & Hp). apply filter_In in Hp as [Hp Hicon].
    apply (party_table_In _ _ _ Hpt) in Hp as (role & ps & ? & ?).
    exists role, ps, p. repeat split; auto.
    unfold is_tank_icon in Hicon. apply existsb_exists in Hicon as (x & Hx & Heq).
    apply String.eqb_eq in Heq. now subst x.
  - intros (role & ps & p & ? & ? & <- & Hicon). exists p. split; [reflexivity|].
    apply filter_In. split; [apply (party_table_In _ _ _ Hpt); eauto|].
    apply existsb_exists. exists (pl_icon p). split; [assumption|].
    apply String.eqb_refl.
Qed.

Lemma tank_flag_spec (k : Z) (d : option metadata) :
  cat_is_tank_damage <$> (category_row_of k <$> d) = Some true <->
  exists c n ds, d = Some (MetaDict c (Some true) n ds).
Proof.
  destruct d as [[c [[|]|] n ds | c]|]; simpl; split;
    try discriminate; try (intros (? & ? & ? & [=])); eauto.
Qed.

(** C4. The tank profile is the table, row by row and in row order,
    restricted to the rows of that condition: each of its rows stands for
    one such row of the table and carries that row's elapsed seconds,
    formatted time, ability name, unmitigated amount, target, description,
    damage type and damage type id, and nothing else. *)
Theorem tank_profile_rows `{PolarsRuntime} dict resp pc tc self
    (filter_uncategorized_events filter_vulns : bool) :
  __init__ dict resp pc tc = Some self ->
  exists keep : event_row -> bool,
    Forall2
      (fun r row =>
         tk_elapsed_seconds row = elapsed_seconds r /\
         tk_formatted_time row = formatted_time r /\
         tk_ability_name row = ability_name r /\
         tk_unmitigatedAmount row = unmitigatedAmount r /\
         tk_targetID row = targetID r /\
         tk_description row = description r /\
         tk_damage_type row = damage_type r /\
         tk_damage_type_id row = damage_type_id r)
      (List.filter keep (damage_events_table self))
      (get_incoming_tank_damage_profile self filter_uncategorized_events
         filter_vulns) /\
    forall r, In r (damage_events_table self) ->
              (keep r = true <-> tank_condition dict resp tc filter_vulns r).
Proof.
  intros Hinit.
  set (p := fun r : event_row =>
              expr_and (expr_and (expr_and (Some (is_tank r)) (is_tank_damage r))
                (is_not_null (unmitigatedAmount r)))
                (lt_lit (unmitigatedAmount r) (tank_damage_ceiling self))).
  exists (fun r => fill_null false (p r) &&
                   (if filter_vulns then negb (is_vuln_damage r) else true)).
  assert (tank_damage self filter_vulns =
          List.filter (fun r => fill_null false (p r) &&
                         (if filter_vulns then negb (is_vuln_damage r) else true))
            (damage_events_table self)) as Heq.
  { unfold tank_damage. fold p. destruct filter_vulns.
    - unfold df_filter. now rewrite filter_filter_andb.
    - unfold df_filter. apply List.filter_ext. intros r. now rewrite andb_true_r. }
  split.
  { unfold get_incoming_tank_damage_profile. rewrite Heq. clear Heq.
    induction (List.filter _ (damage_events_table self)) as [|r rows IH];
      [constructor|].
    rewrite fmap_cons. constructor; [|exact IH].
    unfold select_tank_columns. simpl. tauto. }
  intros r Hr.
  assert (In r (tank_damage self filter_vulns) <->
          fill_null false (p r) &&
            (if filter_vulns then negb (is_vuln_damage r) else true) = true) as <-.
  { rewrite Heq, filter_In. tauto. }
  rewrite tank_damage_In.
  pose proof (init_rows_wf _ _ _ _ _ Hinit) as Hwf.
  rewrite Forall_forall in Hwf. apply list_elem_of_In in Hr as Hr'.
  destruct (Hwf r Hr') as (Htank & _ & _ & Htd & _).
  pose proof (fun id => tank_ids_spec dict resp pc tc self id Hinit) as Hids.
  apply init_fields in Hinit as (_ & Htc & _).
  unfold tank_condition. rewrite Htank, Htd, flag_tank_player_id_spec,
    tank_flag_spec, Htc.
  split.
  - intros (_ & (id & ? & ?) & ? & ? & ?). repeat split; auto.
    exists id. split; [assumption | now apply Hids].
  - intros ((id & ? & ?) & ? & ? & ?). repeat split; auto.
    exists id. split; [assumption | now apply Hids].
Qed.

Lemma tank_profile_rows_demo :
  exists keep : event_row -> bool,
    Forall2
      (fun r row =>
         tk_elapsed_seconds row = elapsed_seconds r /\
         tk_formatted_time row = formatted_time r /\
         tk_ability_name row = ability_name r /\
         tk_unmitigatedAmount row = unmitigatedAmount r /\
         tk_targetID row = targetID r /\
         tk_description row = description r /\
         tk_damage_type row = damage_type r /\
         tk_damage_type_id row = damage_type_id r)
      (List.filter keep (damage_events_table Demo.built))
      (get_incoming_tank_damage_profile Demo.built true false) /\
    forall r, In r (damage_events_table Demo.built) ->
      (keep r = true <->
       tank_condition Demo.config Demo.response default_tank_damage_ceiling
         false r).
Proof.
  apply (tank_profile_rows (H := Demo.runtime) Demo.config Demo.response
           default_party_damage_ceiling default_tank_damage_ceiling
           Demo.built true false).
  vm_compute. reflexivity.
Defined.

(* ================================================================== *)
(** ** The aggregation *)
(* ================================================================== *)










Section Aggregation.
Context `{PolarsRuntime}.

Lemma aggregate_rows (evs : list event_row) (row : profile_row) :
  In row (_aggregate_incoming_damage evs) <->
  exists g, In g (group_by same_group evs) /\ row = agg_group g.
Proof.
  unfold _aggregate_incoming_damage. split.
  - intros Hin. eapply Permutation_in in Hin; [|apply sort_by_perm].
    apply in_map_iff in Hin as (g & <- & Hg). eauto.
  - intros (g & Hg & ->). eapply Permutation_in;
      [symmetry; apply sort_by_perm|]. apply in_map_iff. eauto.
Qed.

(** Every row of the aggregate has its elapsed seconds. *)
Lemma aggregate_elapsed (evs : list event_row) (row : profile_row) :
  In row (_aggregate_incoming_damage evs) -> is_Some (pr_elapsed_seconds row).
Proof.
  intros Hin. apply aggregate_rows in Hin as (g & _ & ->). simpl.
  apply median_is_Some. discriminate.
Qed.



(** C5. Consecutive rows of the party profile come in ascending order
    of elapsed seconds. *)
Theorem party_profile_sorted (self : t) (flag : bool) (i : nat)
    (r1 r2 : profile_row) :
  get_incoming_damage_profile self flag !! i = Some r1 ->
  get_incoming_damage_profile self flag !! S i = Some r2 ->
  exists a b, pr_elapsed_seconds r1 = Some a /\ pr_elapsed_seconds r2 = Some b /\
              (a <= b)%Q.
Proof.
  intros H1 H2. unfold get_incoming_damage_profile in *.
  destruct (aggregate_elapsed (party_damage self flag) r1) as [a Ha].
  { eapply list_elem_of_In, list_elem_of_lookup_2. exact H1. }
  destruct (aggregate_elapsed (party_damage self flag) r2) as [b Hb].
  { eapply list_elem_of_In, list_elem_of_lookup_2. exact H2. }
  exists a, b. split; [assumption|]. split; [assumption|].
  pose proof (sorted_consecutive _ _ i r1 r2
                (sort_by_sorted _
                   (fun x y => nulls_first_leb_total _ _) _) H1 H2) as Hle.
  simpl in Hle. rewrite Ha, Hb in Hle. simpl in Hle.
  now apply Qle_bool_iff.
Qed.

End Aggregation.


Lemma party_profile_sorted_demo :
  exists r1 r2 a b,
    get_incoming_damage_profile (H := Demo.runtime) Demo.built true !! 0%nat
      = Some r1 /\
    get_incoming_damage_profile (H := Demo.runtime) Demo.built true !! 1%nat
      = Some r2 /\
    pr_elapsed_seconds r1 = Some a /\ pr_elapsed_seconds r2 = Some b /\
    (a <= b)%Q.
Proof.
  eexists _, _.
  destruct (party_profile_sorted (H := Demo.runtime) Demo.built true 0%nat _ _
              ltac:(vm_compute; reflexivity) ltac:(vm_compute; reflexivity))
    as (a & b & Ha & Hb & Hle).
  exists a, b. repeat split; try assumption; vm_compute; reflexivity.
Defined.

(* ================================================================== *)
(** ** The start of the fight *)
(* ================================================================== *)

Lemma first_limitbreak (pre post : list starting_event) (lb : starting_event) :
  Forall (fun x => se_type x <> "limitbreakupdate") pre ->
  se_type lb = "limitbreakupdate" ->
  head (df_filter (fun e => eq_lit (Some (se_type e)) "limitbreakupdate")
          (pre ++ lb :: post)) = Some lb.
Proof.
  intros Hpre Hlb. unfold df_filter. rewrite List.filter_app.
  rewrite filter_none.
  - simpl. now rewrite Hlb.
  - intros x Hx. rewrite Forall_forall in Hpre. simpl.
    apply String.eqb_neq. apply Hpre. now apply list_elem_of_In.
Qed.

Lemma no_limitbreak (data : list starting_event) :
  Forall (fun x => se_type x <> "limitbreakupdate") data ->
  df_filter (fun e => eq_lit (Some (se_type e)) "limitbreakupdate") data = [].
Proof.
  intros Hall. apply filter_none. intros x Hx. rewrite Forall_forall in Hall.
  simpl. apply String.eqb_neq. apply Hall. now apply list_elem_of_In.
Qed.

(** C9. [_get_start_timestamp] returns the timestamp of the first
    starting event of type limitbreakupdate. When there is none, or the
    starting events cannot be read, it returns the timestamp of the first
    record of the damage events ([events.data[0]], and it raises when
    there is no such record). Every elapsed seconds value of the table is
    the event's timestamp minus that start, divided by 1000. *)
Theorem start_timestamp_spec `{PolarsRuntime} (resp : event_response) :
  (forall pre lb post,
     startingEvent_data resp = Some (pre ++ lb :: post) ->
     Forall (fun x => se_type x <> "limitbreakupdate") pre ->
     se_type lb = "limitbreakupdate" ->
     _get_start_timestamp resp = Some (se_timestamp lb)) /\
  (startingEvent_data resp = None \/
   (exists data, startingEvent_data resp = Some data /\
                 Forall (fun x => se_type x <> "limitbreakupdate") data) ->
   _get_start_timestamp resp = ev_timestamp <$> head (events_data resp)) /\
  (forall dict pc tc self,
     __init__ dict resp pc tc = Some self ->
     _get_start_timestamp resp = Some (start_timestamp self) /\
     Forall2
       (fun e r =>
          elapsed_seconds r =
          (inject_Z (ev_timestamp e - start_timestamp self) / inject_Z 1000)%Q)
       (List.filter is_damage (events_data resp)) (damage_events_table self)).
Proof.
  split; [|split].
  - intros pre lb post Hdata Hpre Hlb.
    unfold _get_start_timestamp, limitbreak_timestamp. rewrite Hdata. simpl.
    now rewrite first_limitbreak.
  - intros [Hnone | (data & Hdata & Hall)];
      unfold _get_start_timestamp, limitbreak_timestamp.
    + now rewrite Hnone.
    + rewrite Hdata. simpl. now rewrite no_limitbreak.
  - intros dict pc tc self Hinit.
    apply init_fields in Hinit as (_ & _ & Hstart & _ & _ & Hrows).
    split; [exact Hstart|].
    eapply Forall2_impl; [exact Hrows|]. simpl.
    intros e r (fl & Hfl & ->). unfold select_event in Hfl.
    destruct (make_buff_list_col (ev_buffs e)); simpl in Hfl; [|discriminate].
    now injection Hfl as <-.
Qed.

Lemma start_timestamp_spec_demo :
  _get_start_timestamp Demo.response = Some 1000%Z /\
  _get_start_timestamp Demo.response_without_limitbreak
    = ev_timestamp <$> head Demo.events /\
  Forall2
    (fun e r =>
       elapsed_seconds r = (inject_Z (ev_timestamp e - 1000) / inject_Z 1000)%Q)
    (List.filter is_damage Demo.events) (damage_events_table Demo.built).
Proof.
  split; [|split].
  - apply (proj1 (start_timestamp_spec (H := Demo.runtime) Demo.response)
             [{| se_type := "combatantinfo"; se_timestamp := 900 |}]
             {| se_type := "limitbreakupdate"; se_timestamp := 1000 |} []).
    + reflexivity.
    + repeat constructor. discriminate.
    + reflexivity.
  - apply (proj1 (proj2 (start_timestamp_spec (H := Demo.runtime)
                           Demo.response_without_limitbreak))).
    right. eexists. split; [reflexivity|]. repeat constructor. discriminate.
  - apply (proj2 (proj2 (start_timestamp_spec (H := Demo.runtime) Demo.response))
             Demo.config default_party_damage_ceiling
             default_tank_damage_ceiling Demo.built).
    vm_compute. reflexivity.
Defined.

(** The first record of the damage events need not be of type damage:
    without a limit break update the fight of [Demo] starts at the
    calculated-damage record, one second before the first row of the
    table. *)
Remark fallback_is_first_record :
  _get_start_timestamp Demo.response_without_limitbreak = Some 2000%Z /\
  ev_type <$> head Demo.events = Some "calculateddamage" /\
  ev_timestamp <$> head (List.filter is_damage Demo.events) = Some 3000%Z.
Proof. split; [|split]; vm_compute; reflexivity. Qed.

(* ================================================================== *)
(** ** The columns of the table *)
(* ================================================================== *)

(** C8, as the code has it. The table has nineteen columns; the timestamp
    offset, the ability id and name, the raw and the unmitigated amount,
    the target id, the buff list and the damage category are among
    them. *)
Theorem damage_events_table_schema :
  length damage_events_table_columns = 19%nat /\
  Forall (fun c => In c damage_events_table_columns)
    ["elapsed_seconds"; "ability_id"; "ability_name"; "amount";
     "unmitigatedAmount"; "targetID"; "buff_list"; "damage_category"] /\
  damage_events_table_columns =
    ["elapsed_seconds"; "packetID"; "hitType"; "amount"; "unmitigatedAmount";
     "targetID"; "buff_list"; "ability_name"; "ability_id"; "damage_type_id";
     "formatted_time"; "is_tank"; "is_vuln_damage"; "damage_type";
     "damage_category"; "is_tank_damage"; "ability_name_right"; "description";
     "group_by_field"].
Proof.
  split; [reflexivity|]. split; [|reflexivity].
  repeat (apply Forall_cons_2; [simpl; auto 30|]). apply Forall_nil_2.
Qed.

(** C8 fails as stated: the table does not have seven columns. *)
Lemma damage_events_table_not_seven_columns :
  length damage_events_table_columns <> 7%nat.
Proof. vm_compute. discriminate. Qed.

(* ================================================================== *)
(** ** The query *)
(* ================================================================== *)

(** C7, as the code has it. [gql_query] raises exactly when the POST
    itself fails, or the response carries a 4xx or 5xx status, or its body
    is not JSON; on a response of any other status whose body is JSON it
    returns the decoded body. *)
Theorem gql_query_outcome {json V : Type} (json_loads : string -> option json)
    (requests_post : FFLogsAPI.json_payload V -> FFLogsAPI.post_result)
    (query : string) (variables : V) (operation_name : string) :
  let sent :=
    requests_post
      {| FFLogsAPI.query := query; FFLogsAPI.variables := variables;
         FFLogsAPI.operationName := operation_name |} in
  let result :=
    FFLogsAPI.gql_query json_loads requests_post query variables operation_name in
  (raises result = true <->
   (exists e, sent = FFLogsAPI.PostFailed e) \/
   FFLogsAPI.error_status sent = true \/
   (exists status_code text,
      sent = FFLogsAPI.Response status_code text /\ json_loads text = None)) /\
  (forall status_code text j,
     sent = FFLogsAPI.Response status_code text ->
     FFLogsAPI.error_status sent = false ->
     json_loads text = Some j ->
     result = Returned j).
Proof.
  intros sent result. subst result. unfold FFLogsAPI.gql_query. fold sent.
  destruct sent as [e | status_code text] eqn:Hsent; simpl.
  - split; [|discriminate]. split; eauto.
  - unfold FFLogsAPI.raise_for_status, FFLogsAPI.response_json.
    destruct ((400 <=? status_code)%Z && (status_code <? 600)%Z); simpl.
    + split; [split; auto | discriminate].
    + destruct (json_loads text) as [j|] eqn:Hj; simpl; split.
      * split; [discriminate|].
        intros [(e & [=]) | [[=] | (s & t & [= <- <-] & Hn)]]. congruence.
      * intros s t j' [= <- <-] _ Hj'. congruence.
      * split; eauto 6.
      * intros s t j' [= <- <-] _ Hj'. congruence.
Qed.

Lemma gql_query_outcome_demo :
  FFLogsAPI.gql_query Demo.decode_empty_object
    (fun _ : FFLogsAPI.json_payload unit => FFLogsAPI.Response 200 "{}")
    "query" tt "DamageEvents" = Returned "{}".
Proof.
  apply (proj2 (gql_query_outcome Demo.decode_empty_object
                  (fun _ => FFLogsAPI.Response 200 "{}")
                  "query" tt "DamageEvents") 200%Z "{}" "{}");
    reflexivity.
Defined.

(** C7 fails as stated: [gql_query] also raises with no error status at
    hand, when the POST fails before any response arrives, and when a
    response of status 200 carries a body that is not JSON. *)
Lemma gql_query_raises_without_error_status :
  let refused := fun _ : FFLogsAPI.json_payload unit =>
                   FFLogsAPI.PostFailed "ConnectionError" in
  let garbled := fun _ : FFLogsAPI.json_payload unit =>
                   FFLogsAPI.Response 200 "<html>" in
  let sent := {| FFLogsAPI.query := "query"; FFLogsAPI.variables := tt;
                 FFLogsAPI.operationName := "DamageEvents" |} in
  (raises (FFLogsAPI.gql_query Demo.decode_empty_object refused
             "query" tt "DamageEvents") = true /\
   FFLogsAPI.error_status (refused sent) = false) /\
  (raises (FFLogsAPI.gql_query Demo.decode_empty_object garbled
             "query" tt "DamageEvents") = true /\
   FFLogsAPI.error_status (garbled sent) = false).
Proof. repeat split. Qed.

(* ================================================================== *)
(** ** The static page *)
(* ================================================================== *)

Lemma string_app_assoc (s1 s2 s3 : string) :
  (s1 +:+ s2) +:+ s3 = s1 +:+ (s2 +:+ s3).
Proof.
  induction s1 as [|a s1 IH]; [reflexivity|].
  change (String a ((s1 +:+ s2) +:+ s3) = String a (s1 +:+ (s2 +:+ s3))).
  now rewrite IH.
Qed.

Lemma string_app_nil_r (s : string) : s +:+ "" = s.
Proof.
  induction s as [|a s IH]; [reflexivity|].
  change (String a (s +:+ "") = String a s). now rewrite IH.
Qed.

Section PageFacts.
Import StaticPage.
Variable header footer : string.
Variable gen : string -> fight_data -> list string * outcome string.

(** The loop appends, fight by fight, what each fight contributes. *)
Lemma fight_loop (logs : list (string * fight_data)) (st : state) :
  fold_left (fight_step gen) logs st =
  {| html_content := html_content st +:+ fights_html gen logs;
     stdout := stdout st ++ flat_map (fight_lines gen) logs |}.
Proof.
  revert st. induction logs as [|fight logs IH]; intros st; simpl.
  - rewrite string_app_nil_r, app_nil_r. now destruct st.
  - rewrite IH. unfold fight_step, fight_html, fight_lines.
    destruct (gen fight.1 fight.2) as [lines [section | e]]; simpl;
      rewrite string_app_assoc, <- ?app_assoc; simpl;
      rewrite ?app_nil_r, <- ?app_assoc; reflexivity.
Qed.

Lemma error_section_text (fight_name e : string) :
  error_section fight_name e = error_placeholder fight_name e.
Proof.
  unfold error_section, error_placeholder, attr.
  rewrite !string_app_assoc. reflexivity.
Qed.

Lemma fights_html_expected (logs : list (string * fight_data)) :
  fights_html gen logs = expected_sections gen logs.
Proof.
  induction logs as [|fight logs IH]; [reflexivity|].
  simpl. rewrite IH. unfold fight_html.
  destruct (gen fight.1 fight.2).2; [reflexivity|].
  now rewrite error_section_text.
Qed.

Lemma expected_sections_app (l1 l2 : list (string * fight_data)) :
  expected_sections gen (l1 ++ l2)
  = expected_sections gen l1 +:+ expected_sections gen l2.
Proof.
  induction l1 as [|x l1 IH]; simpl; [reflexivity|].
  now rewrite IH, string_app_assoc.
Qed.

(** C6. Whatever the fights do, [main] writes the page, made of the
    header, the table of contents, what each fight gives in turn, and the
    footer. A fight whose section raises gives the error placeholder with
    its name and its error, between what the fights before it and after
    it give, and its error is printed. *)
Theorem main_catches_and_continues (logs : list (string * fight_data)) :
  written (main header footer gen logs) =
    [("docs/index.html",
      (header +:+ generate_table_of_contents logs) +:+
      expected_sections gen logs +:+ footer)] /\
  forall pre fight_name fight_data post lines e,
    logs = pre ++ (fight_name, fight_data) :: post ->
    gen fight_name fight_data = (lines, Raised e) ->
    expected_sections gen logs =
      expected_sections gen pre +:+ error_placeholder fight_name e +:+
      expected_sections gen post /\
    In ("Error processing " +:+ fight_name +:+ ": " +:+ e)
       (printed (main header footer gen logs)).
Proof.
  unfold main. rewrite fight_loop. simpl. split.
  - now rewrite string_app_assoc, fights_html_expected.
  - intros pre fight_name fight_data post lines e -> Hgen. split.
    + rewrite expected_sections_app. simpl. now rewrite Hgen.
    + right. apply in_or_app. left. apply in_flat_map.
      exists (fight_name, fight_data). split; [apply in_or_app; right; now left|].
      unfold fight_lines. simpl. rewrite Hgen. simpl.
      apply in_or_app. right. now left.
Qed.

End PageFacts.

Lemma main_catches_and_continues_demo :
  StaticPage.written
    (StaticPage.main "<html>" "</html>" Demo.section_of Demo.logs) =
    [("docs/index.html",
      ("<html>" +:+ StaticPage.generate_table_of_contents Demo.logs) +:+
      ("<div>M9N</div>" +:+ error_placeholder "M10N" "401 Client Error" +:+
       "<div>M11N</div>") +:+ "</html>")] /\
  In "Error processing M10N: 401 Client Error"
     (StaticPage.printed (StaticPage.main "<html>" "</html>" Demo.section_of
                            Demo.logs)).
Proof.
  destruct (main_catches_and_continues "<html>" "</html>" Demo.section_of
              Demo.logs) as [Hwritten Hfight].
  destruct (Hfight
              [("M9N", {| StaticPage.report_id := "HFK9wckdY1jCMZ27";
                          StaticPage.fight_id := 41;
                          StaticPage.party_damage := Demo.config |})]
              "M10N"
              {| StaticPage.report_id := "r6VFC3gRb4WzaDmw";
                 StaticPage.fight_id := 65;
                 StaticPage.party_damage := Demo.config |}
              [("M11N", {| StaticPage.report_id := "vN4py2QhT91XKLHW";
                           StaticPage.fight_id := 55;
                           StaticPage.party_damage := Demo.config |})]
              ["Processing M10N..."] "401 Client Error"
              eq_refl eq_refl) as [Hhtml Hprinted].
  split; [|exact Hprinted].
  rewrite Hwritten, Hhtml. reflexivity.
Defined.

(* ================================================================== *)
(** ** Further properties: building the object *)
(* ================================================================== *)

Lemma damage_filter_eq (events : list raw_event) :
  df_filter (fun e => eq_lit (Some (ev_type e)) "damage") events
  = List.filter is_damage events.
Proof.
  apply df_filter_ext_in. intros e _. unfold is_damage. simpl.
  split; [now intros [= ->] | now intros ->].
Qed.

Lemma Forall2_In_r {A B} (P : A -> B -> Prop) (l : list A) (k : list B) (y : B) :
  Forall2 P l k -> In y k -> exists x, In x l /\ P x y.
Proof.
  induction 1 as [|x y' l k Hxy _ IH]; intros Hin; [contradiction|].
  destruct Hin as [<- | Hin].
  - exists x. split; [now left | assumption].
  - destruct (IH Hin) as (x' & ? & ?). exists x'. split; [now right | assumption].
Qed.

(** X1. The table has one row for each event of type damage, in the order
    of the events: no event is lost and the join repeats none. The row
    carries the event's packet id, hit type, amounts, target and ability
    unchanged. *)
Theorem events_table_one_row_per_event `{PolarsRuntime} dict resp pc tc self :
  __init__ dict resp pc tc = Some self ->
  length (damage_events_table self)
    = length (List.filter is_damage (events_data resp)) /\
  Forall2
    (fun e r =>
       packetID r = ev_packetID e /\ hitType r = ev_hitType e /\
       amount r = ev_amount e /\
       unmitigatedAmount r = ev_unmitigatedAmount e /\
       targetID r = ev_targetID e /\ ability_name r = ev_ability_name e /\
       ability_id r = ev_ability_guid e /\
       damage_type_id r = ev_ability_type e)
    (List.filter is_damage (events_data resp)) (damage_events_table self).
Proof.
  intros Hinit. apply init_fields in Hinit as (_ & _ & _ & _ & _ & Hrows).
  split; [symmetry; eapply Forall2_length; exact Hrows|].
  eapply Forall2_impl; [exact Hrows|]. simpl.
  intros e r (fl & Hfl & ->). unfold select_event in Hfl.
  destruct (make_buff_list_col (ev_buffs e)); simpl in Hfl; [|discriminate].
  injection Hfl as <-. simpl. repeat split.
Qed.

Lemma events_table_one_row_per_event_demo :
  length (damage_events_table Demo.built) = 7%nat.
Proof.
  rewrite (proj1 (events_table_one_row_per_event (H := Demo.runtime) Demo.config
                    Demo.response default_party_damage_ceiling
                    default_tank_damage_ceiling Demo.built
                    ltac:(vm_compute; reflexivity))).
  reflexivity.
Defined.

Lemma make_buff_list_col_None `{PolarsRuntime} (buffs : option string) :
  make_buff_list_col buffs = None <->
  exists s, buffs = Some s /\
    Exists (fun piece => cast_int64 piece = None)
      (split "." (strip_chars_end "." s)).
Proof.
  unfold make_buff_list_col. destruct buffs as [s|]; simpl.
  - split.
    + intros Hn. exists s. split; [reflexivity|]. apply mapM_None.
      destruct (mapM cast_int64 _); [discriminate | reflexivity].
    + intros (s' & [= <-] & Hex). apply mapM_None in Hex. now rewrite Hex.
  - split; [discriminate | intros (? & [=] & _)].
Qed.

Lemma some_record_has_none {A B} (key : A -> option B) (records : list A) :
  Forall (fun r => key r = None) records -> some_record_has key records = false.
Proof.
  unfold some_record_has. intros Hnone. generalize infer_schema_length.
  induction Hnone as [|r records Hr _ IH]; intros n.
  - now destruct n.
  - destruct n as [|n]; [reflexivity|]. simpl. rewrite Hr. apply IH.
Qed.

Lemma party_table_no_player (resp : event_response) :
  (forall role ps, In (role, ps) (playerDetails resp) -> ps = []) ->
  _get_party_table resp = None.
Proof.
  intros Hno. unfold _get_party_table.
  assert (forall l : list (string * list player),
            (forall role ps, In (role, ps) l -> ps = []) ->
            fold_left (fun acc (roles : string * list player) => acc ++ roles.2)
              l [] = []) as Hfold.
  { induction l as [|[role ps] l IH]; intros Hl; [reflexivity|]. simpl.
    rewrite (Hl role ps) by now left. apply IH.
    intros role' ps' Hin. apply (Hl role' ps'). now right. }
  now rewrite Hfold.
Qed.

(** The cases in which [_get_damage_events_table] raises. *)
Lemma events_table_raises `{PolarsRuntime} dict start tids vids resp :
  events_data resp = [] \/
  Forall (fun e => ev_buffs e = None) (events_data resp) \/
  dict = ∅ \/
  Exists
    (fun e => exists s, ev_buffs e = Some s /\
       Exists (fun piece => cast_int64 piece = None)
         (split "." (strip_chars_end "." s)))
    (List.filter is_damage (events_data resp)) ->
  _get_damage_events_table start tids vids (_get_damage_category_table dict) resp
    = None.
Proof.
  unfold _get_damage_events_table. rewrite damage_filter_eq.
  intros [Hnil | [Hbuffs | [Hdict | Hbad]]].
  - now rewrite Hnil.
  - unfold selected_columns_exist.
    now rewrite (some_record_has_none ev_buffs _ Hbuffs), andb_false_r.
  - destruct (negb (selected_columns_exist _)); [reflexivity|].
    destruct (mapM _ _); simpl; [|reflexivity].
    subst dict. unfold _get_damage_category_table.
    now rewrite map_to_list_empty.
  - destruct (negb (selected_columns_exist _)); [reflexivity|].
    assert (mapM (select_event start tids vids)
              (List.filter is_damage (events_data resp)) = None) as ->;
      [|reflexivity].
    apply mapM_None. apply Exists_exists in Hbad as (e & He & Hpiece).
    apply Exists_exists. exists e. split; [exact He|].
    apply make_buff_list_col_None in Hpiece. unfold select_event.
    now rewrite Hpiece.
Qed.

(** X2. Building the object raises when the query fails, when no start
    timestamp can be read, when the response holds no event, no player
    or no record with a buffs key, when the configuration is empty, and
    when some event of type damage has a buff string with a piece the
    integer cast rejects. *)
Theorem construct_raises `{PolarsRuntime} dict (fetched : outcome event_response)
    pc tc :
  (forall resp, fetched = Returned resp ->
     _get_start_timestamp resp = None \/
     events_data resp = [] \/
     (forall role ps, In (role, ps) (playerDetails resp) -> ps = []) \/
     Forall (fun e => ev_buffs e = None) (events_data resp) \/
     dict = ∅ \/
     Exists
       (fun e => exists s, ev_buffs e = Some s /\
          Exists (fun piece => cast_int64 piece = None)
            (split "." (strip_chars_end "." s)))
       (List.filter is_damage (events_data resp))) ->
  construct dict fetched pc tc = None.
Proof.
  intros Hcase. destruct fetched as [resp | e]; [|reflexivity].
  specialize (Hcase resp eq_refl). unfold construct, __init__.
  destruct (_get_start_timestamp resp) as [start|];
    [|reflexivity].
  destruct Hcase as [Hstart | Hcase]; [discriminate|].
  destruct (_get_party_table resp) as [pt|] eqn:Hpt; [|reflexivity].
  cbn [mbind option_bind].
  assert (_get_damage_events_table start (_get_role_ids pt).1
            (_get_vuln_ids resp) (_get_damage_category_table dict) resp = None)
    as ->; [|reflexivity].
  apply events_table_raises.
  destruct Hcase as [? | [Hno | [? | [? | ?]]]]; auto.
  apply party_table_no_player in Hno. congruence.
Qed.

Lemma construct_raises_demo :
  construct (H := Demo.runtime) ∅ (Returned Demo.response)
    default_party_damage_ceiling default_tank_damage_ceiling = None /\
  __init__ (H := Demo.runtime) Demo.config Demo.response
    default_party_damage_ceiling default_tank_damage_ceiling = Some Demo.built.
Proof.
  split; [|vm_compute; reflexivity].
  apply (construct_raises (H := Demo.runtime)).
  intros resp [= <-]. do 4 right. left. reflexivity.
Defined.

Lemma limitbreak_filter_nil (data : list starting_event) :
  df_filter (fun e => eq_lit (Some (se_type e)) "limitbreakupdate") data = [] <->
  Forall (fun x => se_type x <> "limitbreakupdate") data.
Proof.
  split; [|apply no_limitbreak].
  intros Hf. apply Forall_forall. intros x Hx Hlb. apply list_elem_of_In in Hx.
  assert (In x (df_filter
                  (fun e => eq_lit (Some (se_type e)) "limitbreakupdate") data))
    as Hin.
  { apply df_filter_In. split; [assumption|]. simpl. now rewrite Hlb. }
  rewrite Hf in Hin. contradiction.
Qed.

(** X3. [_get_start_timestamp] raises exactly when the damage events are
    empty and the starting events are unreadable or hold no limit break
    update; in every other case it returns a timestamp. *)
Theorem start_timestamp_raises_iff (resp : event_response) :
  _get_start_timestamp resp = None <->
  events_data resp = [] /\
  (startingEvent_data resp = None \/
   exists data, startingEvent_data resp = Some data /\
                Forall (fun x => se_type x <> "limitbreakupdate") data).
Proof.
  unfold _get_start_timestamp, limitbreak_timestamp.
  destruct (startingEvent_data resp) as [data|]; simpl.
  - pose proof (limitbreak_filter_nil data) as Hnil. simpl in Hnil.
    destruct (df_filter _ data) as [|lb rest]; simpl.
    + destruct (events_data resp); simpl; split; try discriminate.
      * intros _. split; [reflexivity|]. right. exists data.
        split; [reflexivity | now apply Hnil].
      * reflexivity.
      * intros ([=] & _).
    + split; [discriminate|]. intros (_ & [[=] | (d & [= <-] & Hall)]).
      apply Hnil in Hall. discriminate.
  - destruct (events_data resp); simpl; split; try discriminate; auto.
    intros ([=] & _).
Qed.

(** X4. The four columns the join adds follow the configuration entry of
    the row's ability: all four are null for an ability the configuration
    does not list; an old-format entry gives its category, a false tank
    flag and no name or description; a new-format entry gives its fields,
    the tank flag defaulting to false and an empty description turning
    into null. *)
Theorem joined_columns_follow_config `{PolarsRuntime} dict resp pc tc self r :
  __init__ dict resp pc tc = Some self ->
  In r (damage_events_table self) ->
  match dict !! ability_id r with
  | None =>
      damage_category r = None /\ is_tank_damage r = None /\
      ability_name_right r = None /\ description r = None
  | Some (MetaCategory c) =>
      damage_category r = Some c /\ is_tank_damage r = Some false /\
      ability_name_right r = None /\ description r = None
  | Some (MetaDict c tank_flag n d) =>
      damage_category r = c /\
      is_tank_damage r = Some (default false tank_flag) /\
      ability_name_right r = n /\
      description r = (if decide (d = Some "") then None else d)
  end.
Proof.
  intros Hinit Hr. apply init_fields in Hinit as (_ & _ & _ & _ & _ & Hrows).
  destruct (Forall2_In_r _ _ _ _ Hrows Hr) as (e & _ & fl & Hfl & ->).
  pose proof (select_event_ability_id _ _ _ _ _ Hfl) as Hid. simpl.
  rewrite Hid.
  destruct (dict !! ev_ability_guid e) as [[c tank_flag n d | c]|]; simpl;
    repeat split.
  destruct d as [[|a d]|]; simpl; try reflexivity;
    destruct (decide _) as [Heq|Hne]; congruence.
Qed.

Lemma joined_columns_follow_config_demo :
  damage_category Demo.unlisted_row = None /\
  is_tank_damage Demo.unlisted_row = None /\
  ability_name_right Demo.unlisted_row = None /\
  description Demo.unlisted_row = None.
Proof.
  exact (joined_columns_follow_config (H := Demo.runtime) Demo.config
           Demo.response default_party_damage_ceiling
           default_tank_damage_ceiling Demo.built Demo.unlisted_row
           ltac:(vm_compute; reflexivity) ltac:(vm_compute; tauto)).
Defined.

(** X5. The category table has one row for each key of the configuration
    and no other row: the ability ids are distinct, there are as many
    rows as keys, a row is in the table exactly when it is the row of a
    key, and no row has an empty description. *)
Theorem category_table_spec (dict : gmap Z metadata) :
  NoDup (cat_ability_id <$> _get_damage_category_table dict) /\
  length (_get_damage_category_table dict) = size dict /\
  (forall row,
     In row (_get_damage_category_table dict) <->
     exists md, dict !! cat_ability_id row = Some md /\
                row = category_row_of (cat_ability_id row) md) /\
  Forall (fun row => cat_description row <> Some "")
    (_get_damage_category_table dict).
Proof.
  unfold _get_damage_category_table. split; [|split; [|split]].
  - rewrite <- list_fmap_compose.
    erewrite list_fmap_ext; [apply (NoDup_fst_map_to_list dict)|].
    intros i [k md] _. simpl. apply cat_ability_id_of.
  - rewrite length_fmap. apply length_map_to_list.
  - intros row. rewrite in_map_iff. split.
    + intros ([k md] & <- & Hin). simpl. rewrite cat_ability_id_of.
      exists md. split; [|reflexivity].
      now apply elem_of_map_to_list, list_elem_of_In.
    + intros (md & Hmd & ->). exists (cat_ability_id row, md).
      split; [reflexivity|]. now apply list_elem_of_In, elem_of_map_to_list.
  - apply Forall_forall. intros row Hrow.
    apply list_elem_of_fmap in Hrow as ([k md] & -> & _). simpl.
    destruct md as [c tf n [[|a d]|] | c]; simpl; discriminate.
Qed.

Lemma filter_partition_perm {A} (p : A -> bool) (l : list A) :
  Permutation (List.filter p l ++ List.filter (fun x => negb (p x)) l) l.
Proof.
  induction l as [|a l IH]; simpl; [reflexivity|].
  destruct (p a); simpl.
  - now constructor.
  - rewrite <- Permutation_middle. now constructor.
Qed.

(** X6. The tank ids and the other ids together are the ids of the party
    table, each player counted once; when the players have distinct ids,
    no id is on both lists. *)
Theorem role_ids_partition (party_table : list player) :
  Permutation ((_get_role_ids party_table).1 ++ (_get_role_ids party_table).2)
    (pl_id <$> party_table) /\
  (NoDup (pl_id <$> party_table) ->
   forall id, In id (_get_role_ids party_table).1 ->
              ~ In id (_get_role_ids party_table).2).
Proof.
  assert (Permutation
            ((_get_role_ids party_table).1 ++ (_get_role_ids party_table).2)
            (pl_id <$> party_table)) as Hperm.
  { unfold _get_role_ids. simpl. rewrite <- fmap_app.
    apply fmap_Permutation, filter_partition_perm. }
  split; [exact Hperm|].
  intros Hnd id Htank Hother.
  rewrite <- Hperm in Hnd. apply NoDup_app in Hnd as (_ & Hdisj & _).
  apply (Hdisj id); now apply list_elem_of_In.
Qed.

Lemma role_ids_partition_demo :
  In 1%Z (tank_ids Demo.built) /\ ~ In 1%Z (non_tank_ids Demo.built).
Proof.
  assert (In 1%Z (tank_ids Demo.built)) as Htank by (vm_compute; tauto).
  split; [exact Htank|].
  apply (proj2 (role_ids_partition (party_table Demo.built))); [|exact Htank].
  vm_compute.
  repeat (apply NoDup_cons_2;
          [intros Hin; apply list_elem_of_In in Hin; simpl in Hin;
           intuition discriminate|]).
  apply NoDup_nil_2.
Defined.

(* ================================================================== *)
(** ** Further properties: the buff string and the flags *)
(* ================================================================== *)

Lemma string_cons_app (a : ascii) (s t : string) :
  String a s +:+ t = String a (s +:+ t).
Proof. reflexivity. Qed.

Lemma dot_free_tail (a : ascii) (s : string) :
  dot_free (String a s) -> a <> "."%char /\ dot_free s.
Proof.
  intros Hd. split; [apply Hd; now left|].
  intros b Hb. apply Hd. now right.
Qed.

Lemma strip_dot_free (s : string) :
  dot_free s -> strip_chars_end "." s = s.
Proof.
  induction s as [|a s IH]; [reflexivity|].
  intros Hd. apply dot_free_tail in Hd as [Ha Hs]. simpl.
  rewrite (IH Hs). destruct s; [|reflexivity].
  now apply Ascii.eqb_neq in Ha as ->.
Qed.

Lemma strip_app_nonempty (c : ascii) (u v : string) :
  strip_chars_end c v <> "" ->
  strip_chars_end c (u +:+ v) = u +:+ strip_chars_end c v.
Proof.
  intros Hv. induction u as [|a u IH]; [reflexivity|].
  rewrite !string_cons_app. simpl. rewrite IH.
  destruct (u +:+ strip_chars_end c v) eqn:Hu; [|reflexivity].
  destruct u; [|discriminate]. now destruct Hv.
Qed.

Lemma strip_app_empty (c : ascii) (u v : string) :
  strip_chars_end c v = "" ->
  strip_chars_end c (u +:+ v) = strip_chars_end c u.
Proof.
  intros Hv. induction u as [|a u IH]; [exact Hv|].
  rewrite string_cons_app. simpl. now rewrite IH.
Qed.

Lemma split_dot_free (s : string) : dot_free s -> split "." s = [s].
Proof.
  induction s as [|a s IH]; [reflexivity|].
  intros Hd. apply dot_free_tail in Hd as [Ha Hs]. simpl.
  apply Ascii.eqb_neq in Ha as ->. now rewrite (IH Hs).
Qed.

Lemma split_app_dot (s x : string) :
  dot_free s -> split "." (s +:+ "." +:+ x) = s :: split "." x.
Proof.
  induction s as [|a s IH]; [reflexivity|].
  intros Hd. apply dot_free_tail in Hd as [Ha Hs].
  rewrite string_cons_app. simpl.
  apply Ascii.eqb_neq in Ha as ->. now rewrite (IH Hs).
Qed.

Lemma strip_split_dotted (pieces : list string) (last : string) :
  Forall dot_free (pieces ++ [last]) -> last <> "" ->
  strip_chars_end "." (dotted (pieces ++ [last])) <> "" /\
  split "." (strip_chars_end "." (dotted (pieces ++ [last]))) = pieces ++ [last].
Proof.
  intros Hall Hlast. induction pieces as [|s pieces IH]; simpl in *.
  - apply Forall_cons_1 in Hall as [Hd _].
    rewrite (strip_app_empty "." last ("." +:+ "")) by reflexivity.
    rewrite (strip_dot_free last Hd). split; [assumption|].
    now apply split_dot_free.
  - apply Forall_cons_1 in Hall as [Hs Hall].
    destruct (IH Hall) as [Hne Hsplit].
    assert (strip_chars_end "." ("." +:+ dotted (pieces ++ [last]))
            = "." +:+ strip_chars_end "." (dotted (pieces ++ [last]))) as Hdot
      by now apply strip_app_nonempty.
    rewrite strip_app_nonempty by (rewrite Hdot; discriminate).
    rewrite Hdot. split.
    + destruct s; discriminate.
    + rewrite split_app_dot by assumption. now rewrite Hsplit.
Qed.

(** X7. A buff string written as the API writes it, each id followed by a
    dot, is read back as the list of its ids: stripping the trailing dot
    and splitting at the dots gives the pieces back, and the buff list is
    the list of their integer values. The pieces hold no dot and the last
    one is not empty. *)
Theorem buff_string_round_trip `{PolarsRuntime} (pieces : list string)
    (last : string) (ids : list Z) :
  Forall dot_free (pieces ++ [last]) -> last <> "" ->
  Forall2 (fun s z => cast_int64 s = Some z) (pieces ++ [last]) ids ->
  split "." (strip_chars_end "." (dotted (pieces ++ [last]))) = pieces ++ [last] /\
  make_buff_list_col (Some (dotted (pieces ++ [last]))) = Some (Some ids).
Proof.
  intros Hall Hlast Hcast.
  destruct (strip_split_dotted pieces last Hall Hlast) as [_ Hsplit].
  split; [exact Hsplit|].
  unfold make_buff_list_col. rewrite Hsplit.
  apply mapM_Some in Hcast. now rewrite Hcast.
Qed.

Lemma buff_string_round_trip_demo :
  split "." (strip_chars_end "." "1001.1002.") = ["1001"; "1002"] /\
  make_buff_list_col (H := Demo.runtime) (Some "1001.1002.")
    = Some (Some [1001%Z; 1002%Z]).
Proof.
  apply (buff_string_round_trip (H := Demo.runtime) ["1001"] "1002"
           [1001%Z; 1002%Z]).
  - repeat (apply Forall_cons_2;
            [intros a Ha; simpl in Ha; intuition (subst; discriminate)|]).
    apply Forall_nil_2.
  - discriminate.
  - repeat constructor.
Defined.

(** X8. An event is flagged as vulnerability damage exactly when it has a
    buff list and that list holds one of the vulnerability ids; a null
    buff list, an empty buff list and an empty list of vulnerability ids
    never flag. *)
Theorem vuln_flag_iff (vuln_ids : list Z) :
  (forall buff_list,
     flag_vuln_status vuln_ids buff_list = true <->
     exists l id, buff_list = Some l /\ In id l /\ In id vuln_ids) /\
  flag_vuln_status vuln_ids None = false /\
  flag_vuln_status vuln_ids (Some []) = false /\
  (forall buff_list, flag_vuln_status [] buff_list = false).
Proof.
  split; [apply flag_vuln_status_spec|]. repeat split.
  intros buff_list. destruct (flag_vuln_status [] buff_list) eqn:Hf; [|reflexivity].
  apply flag_vuln_status_spec in Hf as (_ & _ & _ & _ & []).
Qed.

(** X9. A target is flagged as a tank exactly when it is present and is
    one of the tank ids; a null target is never a tank. *)
Theorem tank_flag_iff (tank_ids : list Z) :
  (forall targetID,
     flag_tank_player_id tank_ids targetID = true <->
     exists id, targetID = Some id /\ In id tank_ids) /\
  flag_tank_player_id tank_ids None = false.
Proof. split; [apply flag_tank_player_id_spec | reflexivity]. Qed.

(* ================================================================== *)
(** ** Further properties: the profiles *)
(* ================================================================== *)

(** X10. No row of the table is counted on both sides: a row the party
    profile aggregates is never a row of the tank profile, whatever the
    arguments of the two methods. *)
Theorem party_and_tank_rows_disjoint (self : t) (flag filter_vulns : bool)
    (r : event_row) :
  In r (party_damage self flag) -> ~ In r (tank_damage self filter_vulns).
Proof.
  intros Hp Ht. apply party_damage_In in Hp as (_ & Hp & _).
  apply tank_damage_In in Ht as (_ & Ht & _). congruence.
Qed.

Lemma party_and_tank_rows_disjoint_demo :
  In Demo.raidwide_row (party_damage Demo.built true) /\
  ~ In Demo.raidwide_row (tank_damage Demo.built false).
Proof.
  assert (In Demo.raidwide_row (party_damage Demo.built true)) as Hin;
    [|split; [exact Hin|];
      exact (party_and_tank_rows_disjoint Demo.built true false _ Hin)].
  apply party_damage_In. split; [vm_compute; tauto|].
  split; [reflexivity|]. split; [reflexivity|]. split; [reflexivity|].
  split; [exists 5000%Z; split; reflexivity|].
  intros _. eexists. reflexivity.
Defined.

Lemma median_between (xs : list Q) (m : Q) :
  median xs = Some m ->
  exists lo hi, In lo xs /\ In hi xs /\ (lo <= m)%Q /\ (m <= hi)%Q.
Proof.
  unfold median.
  pose proof (sort_by_perm Qle_bool xs) as Hperm.
  pose proof (sort_by_sorted Qle_bool Qle_bool_total xs) as Hsorted.
  set (s := sort_by Qle_bool xs) in *.
  assert (forall i x, s !! i = Some x -> In x xs) as Hin.
  { intros i x Hx. eapply Permutation_in; [exact Hperm|].
    eapply list_elem_of_In, list_elem_of_lookup_2. exact Hx. }
  destruct (Nat.even (length s)) eqn:Hev.
  - destruct (s !! (length s / 2 - 1)%nat) as [a|] eqn:Ha; [|discriminate].
    destruct (s !! (length s / 2)%nat) as [b|] eqn:Hb; [|discriminate].
    intros [= <-].
    assert (S (length s / 2 - 1) = length s / 2)%nat as Hidx.
    { apply lookup_lt_Some in Hb.
      destruct (length s) as [|[|n]] eqn:Hn; [lia | discriminate|].
      assert (1 <= S (S n) / 2)%nat
        by (apply Nat.div_le_lower_bound; lia). lia. }
    assert (a <= b)%Q as Hab.
    { apply Qle_bool_iff.
      apply (sorted_consecutive _ s (length s / 2 - 1) a b Hsorted Ha).
      now rewrite Hidx. }
    exists a, b. split; [eapply Hin; exact Ha|]. split; [eapply Hin; exact Hb|].
    unfold Qdiv. change (/ inject_Z 2)%Q with (1 # 2)%Q. split; lra.
  - intros Hm. exists m, m. split; [eapply Hin; exact Hm|].
    split; [eapply Hin; exact Hm|]. split; apply Qle_refl.
Qed.

Lemma cast_int_between (lo hi : Z) (q : Q) :
  (inject_Z lo <= q)%Q -> (q <= inject_Z hi)%Q -> (lo <= cast_int q <= hi)%Z.
Proof.
  destruct q as [n d]. unfold Qle, cast_int. simpl. intros Hlo Hhi.
  pose proof (Z.quot_rem' n (Z.pos d)).
  destruct (Z_le_gt_dec 0 n).
  - pose proof (Z.rem_bound_pos n (Z.pos d) ltac:(lia) ltac:(lia)). nia.
  - pose proof (Z.rem_bound_pos_neg n (Z.pos d) ltac:(lia) ltac:(lia)). nia.
Qed.

Section ProfileBounds.
Context `{PolarsRuntime}.

(** X11. With the aggregated amounts within 2^51 of zero, where the
    [Float64] median of the program is exact, every row of the party
    profile has an unmitigated amount, and it lies between the amounts of
    two aggregated events of the row's group; so it is below the party
    damage ceiling. *)
Theorem profile_amount_within_group (self : t) (flag : bool) (row : profile_row) :
  float64_exact_amounts (party_damage self flag) = true ->
  In row (get_incoming_damage_profile self flag) ->
  exists v e1 e2 a1 a2,
    pr_unmitigatedAmount row = Some v /\
    In e1 (party_damage self flag) /\ In e2 (party_damage self flag) /\
    key_eqb (pr_group_by_field row) (group_by_field e1) = true /\
    key_eqb (pr_group_by_field row) (group_by_field e2) = true /\
    unmitigatedAmount e1 = Some a1 /\ unmitigatedAmount e2 = Some a2 /\
    (a1 <= v <= a2)%Z /\ (v < party_damage_ceiling self)%Z.
Proof.
  intros _ Hrow. unfold get_incoming_damage_profile in Hrow.
  apply aggregate_rows in Hrow as (g & Hg & ->).
  destruct (group_by_grouped same_group same_group_refl same_group_sym
              same_group_trans (party_damage self flag)) as (Hrows & _ & _).
  specialize (Hrows g Hg).
  assert (forall e, In e (g.1 :: g.2) ->
            In e (party_damage self flag) /\ same_group g.1 e = true) as Hmem.
  { intros e He. rewrite Hrows in He. now apply filter_In in He. }
  assert (exists a0, unmitigatedAmount g.1 = Some a0) as (a0 & Ha0).
  { destruct (Hmem g.1 (or_introl eq_refl)) as [Hin _].
    apply party_damage_In in Hin as (_ & _ & _ & _ & (a & Ha & _) & _). eauto. }
  unfold agg_group. cbn [pr_unmitigatedAmount pr_group_by_field].
  destruct (median_is_Some (inject_Z <$> omap unmitigatedAmount (g.1 :: g.2)))
    as [m Hm].
  { simpl. rewrite Ha0. discriminate. }
  rewrite Hm.
  destruct (median_between _ _ Hm) as (lo & hi & Hlo & Hhi & Hlom & Hmhi).
  assert (forall q, In q (inject_Z <$> omap unmitigatedAmount (g.1 :: g.2)) ->
            exists e a, q = inject_Z a /\ In e (g.1 :: g.2) /\
                        unmitigatedAmount e = Some a) as Hsrc.
  { intros q Hq. apply in_map_iff in Hq as (a & <- & Ha).
    apply list_elem_of_In, list_elem_of_omap in Ha as (e & He & Hea).
    exists e, a. split; [reflexivity|]. split; [now apply list_elem_of_In|].
    exact Hea. }
  destruct (Hsrc lo Hlo) as (e1 & a1 & -> & He1 & Ha1).
  destruct (Hsrc hi Hhi) as (e2 & a2 & -> & He2 & Ha2).
  destruct (Hmem e1 He1) as [Hin1 Hs1]. destruct (Hmem e2 He2) as [Hin2 Hs2].
  pose proof (cast_int_between a1 a2 m Hlom Hmhi) as Hbound.
  exists (cast_int m), e1, e2, a1, a2. repeat split; try assumption; try lia.
  apply party_damage_In in Hin2 as (_ & _ & _ & _ & (a & Ha & Hlt) & _).
  rewrite Ha2 in Ha. injection Ha as <-. lia.
Qed.

Lemma add_to_group_length {A} (same : A -> A -> bool) (r : A)
    (gs : list (A * list A)) :
  (length (add_to_group same r gs) <= S (length gs))%nat.
Proof.
  induction gs as [|[r0 rest] gs IH]; simpl; [lia|].
  destruct (same r0 r); simpl; lia.
Qed.

Lemma group_by_length {A} (same : A -> A -> bool) (df : list A) :
  (length (group_by same df) <= length df)%nat.
Proof.
  induction df as [|r df IH] using List.rev_ind; [simpl; lia|].
  unfold group_by in *. rewrite fold_left_app, length_app. simpl.
  pose proof (add_to_group_length same r
                (fold_left (fun gs r => add_to_group same r gs) df [])).
  lia.
Qed.

(** X12. The party profile never has more rows than events were
    aggregated, and it is empty exactly when no event passes the
    filter. *)
Theorem profile_size (self : t) (flag : bool) :
  (length (get_incoming_damage_profile self flag)
   <= length (party_damage self flag))%nat /\
  (get_incoming_damage_profile self flag = [] <-> party_damage self flag = []).
Proof.
  unfold get_incoming_damage_profile, _aggregate_incoming_damage.
  set (events := party_damage self flag).
  assert (length (sort_by
            (fun a b => nulls_first_leb (pr_elapsed_seconds a) (pr_elapsed_seconds b))
            (agg_group <$> group_by same_group events))
          = length (group_by same_group events)) as Hlen.
  { rewrite (Permutation_length (sort_by_perm _ _)). apply length_fmap. }
  split.
  - rewrite Hlen. apply group_by_length.
  - split.
    + intros Hnil. rewrite Hnil in Hlen. simpl in Hlen.
      destruct events as [|e events'] eqn:He; [reflexivity|].
      destruct (group_by_grouped same_group same_group_refl same_group_sym
                  same_group_trans (e :: events')) as (_ & Hcover & _).
      destruct (Hcover e (or_introl eq_refl)) as (g & Hg & _).
      destruct (group_by same_group (e :: events')); [contradiction | discriminate].
    + intros ->. reflexivity.
Qed.

End ProfileBounds.

Lemma profile_amount_within_group_demo :
  exists row v,
    In row (get_incoming_damage_profile (H := Demo.runtime) Demo.built true) /\
    pr_unmitigatedAmount row = Some v /\
    (v < party_damage_ceiling Demo.built)%Z.
Proof.
  assert (exists row,
            get_incoming_damage_profile (H := Demo.runtime) Demo.built true
              !! 0%nat = Some row) as [row Hrow]
    by (eexists; vm_compute; reflexivity).
  assert (In row (get_incoming_damage_profile (H := Demo.runtime) Demo.built true))
    as Hin by (eapply list_elem_of_In, list_elem_of_lookup_2; exact Hrow).
  destruct (profile_amount_within_group (H := Demo.runtime) Demo.built true row
              ltac:(vm_compute; reflexivity) Hin)
    as (v & e1 & e2 & a1 & a2 & Hv & _ & _ & _ & _ & _ & _ & _ & Hlt).
  exists row, v. repeat split; assumption.
Defined.

(* ================================================================== *)
(** ** Further properties: the list of abilities *)
(* ================================================================== *)

(** X13. The list of damaging abilities holds each triple of ability
    name, ability id and damage type id of the table once, holds no other
    triple, and is in ascending order of ability id. *)
Theorem damaging_abilities_spec (self : t) :
  NoDup (get_damaging_ability_names_and_ids self) /\
  Sorted (fun a b => (ab_ability_id a <= ab_ability_id b)%Z)
    (get_damaging_ability_names_and_ids self) /\
  (forall name id type_id,
     In {| ab_ability_name := name; ab_ability_id := id;
           ab_damage_type_id := type_id |}
        (get_damaging_ability_names_and_ids self) <->
     exists r, In r (damage_events_table self) /\
               ability_name r = name /\ ability_id r = id /\
               damage_type_id r = type_id).
Proof.
  unfold get_damaging_ability_names_and_ids.
  set (leb := fun a b => (ab_ability_id a <=? ab_ability_id b)%Z).
  set (rows := remove_dups (select_ability <$> damage_events_table self)).
  pose proof (sort_by_perm leb rows) as Hperm.
  split; [|split].
  - rewrite Hperm. apply NoDup_remove_dups.
  - eapply Sorted_weaken; [|apply (sort_by_sorted leb)].
    + intros a b Hab. now apply Z.leb_le.
    + intros a b Hab. subst leb. simpl in *.
      apply Z.leb_le. apply Z.leb_gt in Hab. lia.
  - intros name id type_id. split.
    + intros Hin. eapply Permutation_in in Hin; [|exact Hperm].
      apply list_elem_of_In, elem_of_remove_dups, list_elem_of_fmap in Hin
        as (r & Heq & Hr).
      exists r. split; [now apply list_elem_of_In|].
      unfold select_ability in Heq. now injection Heq as -> -> ->.
    + intros (r & Hr & <- & <- & <-).
      eapply Permutation_in; [symmetry; exact Hperm|].
      apply list_elem_of_In, elem_of_remove_dups, list_elem_of_fmap.
      exists r. split; [reflexivity | now apply list_elem_of_In].
Qed.

(** X18. Which debuffs count as Vulnerability Up does not depend on the
    letter case of their names: two aura tables that agree on the ids
    and, up to letter case, on the names give the same vulnerability
    ids. *)
Theorem vuln_ids_ignore_case (resp resp' : event_response) :
  Forall2 (fun a b => lower (au_name a) = lower (au_name b) /\
                      au_guid a = au_guid b)
    (buffTable_auras resp) (buffTable_auras resp') ->
  _get_vuln_ids resp = _get_vuln_ids resp'.
Proof.
  unfold _get_vuln_ids. generalize (buffTable_auras resp) (buffTable_auras resp').
  induction 1 as [|a b l l' [Hn Hg] _ IH]; [reflexivity|].
  simpl. rewrite Hn. destruct (String.eqb (lower (au_name b)) _); simpl;
    [rewrite Hg; f_equal|]; exact IH.
Qed.

Lemma vuln_ids_ignore_case_demo :
  _get_vuln_ids Demo.response =
  _get_vuln_ids
    {| playerDetails := []; startingEvent_data := None; events_data := [];
       buffTable_auras :=
         [{| au_name := "VULNERABILITY UP"; au_guid := 1001 |};
          {| au_name := "doom"; au_guid := 1002 |}] |}.
Proof.
  apply vuln_ids_ignore_case. simpl. repeat constructor.
Defined.

(* ================================================================== *)
(** ** Further properties: the page *)
(* ================================================================== *)

Lemma fold_left_append {A} (f : A -> string) (l : list A) (init : string) :
  fold_left (fun acc x => acc +:+ f x) l init
  = init +:+ fold_right (fun x rest => f x +:+ rest) "" l.
Proof.
  revert init. induction l as [|x l IH]; intros init; simpl.
  - now rewrite string_app_nil_r.
  - now rewrite IH, string_app_assoc.
Qed.

Section HtmlTableFacts.
Import StaticPage.
Context {V : Type}.
Variable str : V -> string.

Lemma row_step (html : string) (row : list (option V)) :
  fold_left
    (fun html value =>
       html +:+ "      <td>" +:+
       match value with None => "" | Some v => str v end +:+ "</td>" +:+ newline)
    row (html +:+ "    <tr>" +:+ newline) +:+ "    </tr>" +:+ newline
  = html +:+ row_html str row.
Proof.
  rewrite (fold_left_append (cell_html str)). unfold row_html.
  now rewrite !string_app_assoc.
Qed.

Lemma rows_loop (rows : list (list (option V))) (init : string) :
  fold_left
    (fun html row =>
       let html := html +:+ "    <tr>" +:+ newline in
       let html :=
         fold_left
           (fun html value =>
              let display_value :=
                match value with None => "" | Some v => str v end in
              html +:+ "      <td>" +:+ display_value +:+ "</td>" +:+ newline)
           row html in
       html +:+ "    </tr>" +:+ newline)
    rows init
  = init +:+ fold_right (fun row rest => row_html str row +:+ rest) "" rows.
Proof.
  revert init. induction rows as [|row rows IH]; intros init; simpl.
  - now rewrite string_app_nil_r.
  - rewrite row_step, IH. now rewrite string_app_assoc.
Qed.

Lemma html_table_unfolded (columns : list string)
    (rows : list (list (option V))) (table_id : string) :
  dataframe_to_html_table str columns rows table_id =
    ("<table " +:+ attr "class" "table table-striped table-hover" +:+ " " +:+
     attr "id" table_id +:+ ">" +:+ newline +:+
     "  <thead>" +:+ newline +:+ "    <tr>" +:+ newline) +:+
    fold_right (fun col rest => header_cell_html col +:+ rest) "" columns +:+
    ("    </tr>" +:+ newline +:+ "  </thead>" +:+ newline +:+
     "  <tbody>" +:+ newline) +:+
    fold_right (fun row rest => row_html str row +:+ rest) "" rows +:+
    ("  </tbody>" +:+ newline +:+ "</table>" +:+ newline).
Proof.
  unfold dataframe_to_html_table.
  rewrite rows_loop, (fold_left_append header_cell_html).
  now rewrite !string_app_assoc.
Qed.

(** X14. The HTML table is its opening, one header cell for each column,
    and one row block for each row of the frame in row order, each block
    holding one cell for each value; a value enters the table only as its
    text, a null as the empty text, with no escaping. *)
Theorem html_table_layout (columns : list string)
    (rows : list (list (option V))) (table_id : string) :
  dataframe_to_html_table str columns rows table_id =
    ("<table " +:+ attr "class" "table table-striped table-hover" +:+ " " +:+
     attr "id" table_id +:+ ">" +:+ newline +:+
     "  <thead>" +:+ newline +:+ "    <tr>" +:+ newline) +:+
    fold_right (fun col rest => header_cell_html col +:+ rest) "" columns +:+
    ("    </tr>" +:+ newline +:+ "  </thead>" +:+ newline +:+
     "  <tbody>" +:+ newline) +:+
    fold_right (fun row rest => row_html str row +:+ rest) "" rows +:+
    ("  </tbody>" +:+ newline +:+ "</table>" +:+ newline).
Proof. apply html_table_unfolded. Qed.

End HtmlTableFacts.

Lemma row_html_text {V} (str : V -> string) (row : list (option V)) :
  row_html (fun s : string => s)
    (map (fun value => Some match value with None => "" | Some v => str v end)
       row)
  = row_html str row.
Proof.
  unfold row_html.
  assert (fold_right
            (fun value rest => cell_html (fun s : string => s) value +:+ rest) ""
            (map (fun value =>
                    Some match value with None => "" | Some v => str v end) row)
          = fold_right (fun value rest => cell_html str value +:+ rest) "" row)
    as ->; [|reflexivity].
  induction row as [|value row IH]; [reflexivity|].
  cbn [map fold_right]. rewrite IH. now destruct value.
Qed.

(** X15. A table whose values are replaced by their texts, nulls by the
    empty text, is rendered the same: nulls and empty strings cannot be
    told apart in the page. *)
Theorem html_table_null_is_empty {V} (str : V -> string) (columns : list string)
    (rows : list (list (option V))) (table_id : string) :
  StaticPage.dataframe_to_html_table str columns rows table_id =
  StaticPage.dataframe_to_html_table (fun s : string => s) columns
    (map (map (fun value =>
                 Some match value with None => "" | Some v => str v end)) rows)
    table_id.
Proof.
  rewrite !html_table_unfolded.
  assert (fold_right
            (fun row rest => row_html (fun s : string => s) row +:+ rest) ""
            (map (map (fun value =>
                    Some match value with None => "" | Some v => str v end))
               rows)
          = fold_right (fun row rest => row_html str row +:+ rest) "" rows) as ->;
    [|reflexivity].
  induction rows as [|row rows IH]; [reflexivity|].
  cbn [map fold_right]. now rewrite IH, row_html_text.
Qed.

Section TocFacts.
Import StaticPage.

(** X16. The table of contents has one link for each fight, in the order
    of the fights, each pointing to the lower-cased name of the fight; it
    depends on the names of the fights only. *)
Theorem table_of_contents_layout (fights : list (string * fight_data)) :
  generate_table_of_contents fights =
    (newline +:+
     "    <div " +:+ attr "class" "fight-section" +:+ ">" +:+ newline +:+
     "        <h2 " +:+ attr "class" "fight-title" +:+ ">Quick Navigation</h2>"
       +:+ newline +:+
     "        <div " +:+ attr "class" "list-group" +:+ ">" +:+ newline) +:+
    fold_right (fun name rest => toc_entry name +:+ rest) "" (fst <$> fights) +:+
    ("        </div>" +:+ newline +:+ "    </div>" +:+ newline).
Proof.
  unfold generate_table_of_contents.
  rewrite (fold_left_append (fun fight : string * fight_data => toc_entry fight.1)).
  assert (fold_right
            (fun (fight : string * fight_data) rest => toc_entry fight.1 +:+ rest)
            "" fights
          = fold_right (fun name rest => toc_entry name +:+ rest) ""
              (fst <$> fights)) as ->.
  { induction fights as [|fight fights IH]; [reflexivity|].
    rewrite fmap_cons. cbn [fold_right]. now rewrite IH. }
  now rewrite !string_app_assoc.
Qed.

Variable header footer : string.
Variable gen : string -> fight_data -> list string * outcome string.

(** X17. [main] prints its opening line, then for each fight in turn what
    the section generator printed, followed by the error line when it
    raised, then its closing line; and it writes exactly one file. *)
Theorem main_printed_lines (logs : list (string * fight_data)) :
  printed (main header footer gen logs) =
    "Generating static HTML page..." ::
    flat_map (fight_lines gen) logs ++
    ["Static page generated: docs/index.html"] /\
  length (written (main header footer gen logs)) = 1%nat.
Proof.
  unfold main. rewrite fight_loop. simpl. split; reflexivity.
Qed.

End TocFacts.

(* ================================================================== *)
(** ** Further properties: times and damage types *)
(* ================================================================== *)

(** X19. Every row of the party profile has its elapsed seconds, and
    they lie between the elapsed seconds of two aggregated events of the
    row's group: the time of a group is never before its first hit nor
    after its last. *)
Theorem profile_time_within_group `{PolarsRuntime} (self : t) (flag : bool)
    (row : profile_row) :
  In row (get_incoming_damage_profile self flag) ->
  exists m e1 e2,
    pr_elapsed_seconds row = Some m /\
    In e1 (party_damage self flag) /\ In e2 (party_damage self flag) /\
    key_eqb (pr_group_by_field row) (group_by_field e1) = true /\
    key_eqb (pr_group_by_field row) (group_by_field e2) = true /\
    (elapsed_seconds e1 <= m)%Q /\ (m <= elapsed_seconds e2)%Q.
Proof.
  intros Hrow. unfold get_incoming_damage_profile in Hrow.
  apply aggregate_rows in Hrow as (g & Hg & ->).
  destruct (group_by_grouped same_group same_group_refl same_group_sym
              same_group_trans (party_damage self flag)) as (Hrows & _ & _).
  specialize (Hrows g Hg).
  assert (forall e, In e (g.1 :: g.2) ->
            In e (party_damage self flag) /\ same_group g.1 e = true) as Hmem.
  { intros e He. rewrite Hrows in He. now apply filter_In in He. }
  unfold agg_group. cbn [pr_elapsed_seconds pr_group_by_field].
  destruct (median_is_Some (elapsed_seconds <$> g.1 :: g.2)) as [m Hm];
    [discriminate|].
  rewrite Hm.
  destruct (median_between _ _ Hm) as (lo & hi & Hlo & Hhi & Hlom & Hmhi).
  apply in_map_iff in Hlo as (e1 & <- & He1).
  apply in_map_iff in Hhi as (e2 & <- & He2).
  destruct (Hmem e1 He1) as [Hin1 Hs1]. destruct (Hmem e2 He2) as [Hin2 Hs2].
  exists m, e1, e2. repeat split; assumption.
Qed.

Lemma profile_time_within_group_demo :
  exists row m,
    In row (get_incoming_damage_profile (H := Demo.runtime) Demo.built true) /\
    pr_elapsed_seconds row = Some m.
Proof.
  assert (exists row,
            get_incoming_damage_profile (H := Demo.runtime) Demo.built true
              !! 0%nat = Some row) as [row Hrow]
    by (eexists; vm_compute; reflexivity).
  assert (In row (get_incoming_damage_profile (H := Demo.runtime) Demo.built true))
    as Hin by (eapply list_elem_of_In, list_elem_of_lookup_2; exact Hrow).
  destruct (profile_time_within_group (H := Demo.runtime) Demo.built true row Hin)
    as (m & e1 & e2 & Hm & _).
  exists row, m. split; assumption.
Defined.

Lemma damage_type_of_cases (id : Z) :
  (id = 128%Z /\ damage_type_of id = "Physical") \/
  (id = 1024%Z /\ damage_type_of id = "Magical") \/
  (id <> 128%Z /\ id <> 1024%Z /\ damage_type_of id = "unknown").
Proof.
  unfold damage_type_of, DAMAGE_TYPE. cbn [List.find fst snd].
  destruct (Z.eqb_spec 128 id) as [<- | H128]; [left; split; reflexivity|].
  destruct (Z.eqb_spec 1024 id) as [<- | H1024];
    [right; left; split; reflexivity|].
  right. right. repeat split; congruence.
Qed.

(** X20. The damage type of a row of the table is Physical exactly for
    the type id 128, Magical exactly for 1024, and unknown for every
    other id. *)
Theorem damage_type_values `{PolarsRuntime} dict resp pc tc self r :
  __init__ dict resp pc tc = Some self ->
  In r (damage_events_table self) ->
  (damage_type r = "Physical" <-> damage_type_id r = 128%Z) /\
  (damage_type r = "Magical" <-> damage_type_id r = 1024%Z) /\
  (damage_type r = "unknown" <->
   damage_type_id r <> 128%Z /\ damage_type_id r <> 1024%Z).
Proof.
  intros Hinit Hr. apply init_fields in Hinit as (_ & _ & _ & _ & _ & Hrows).
  destruct (Forall2_In_r _ _ _ _ Hrows Hr) as (e & _ & fl & Hfl & ->).
  unfold select_event in Hfl.
  destruct (make_buff_list_col (ev_buffs e)); simpl in Hfl; [|discriminate].
  injection Hfl as <-.
  cbn [damage_type damage_type_id joined_row reflag fl_damage_type
       fl_damage_type_id].
  destruct (damage_type_of_cases (ev_ability_type e))
    as [[-> ->] | [[-> ->] | (H128 & H1024 & ->)]];
    repeat split; try discriminate; try reflexivity; try congruence;
    try (intros [? ?]; congruence).
Qed.

Lemma damage_type_values_demo :
  damage_type Demo.buster_row = "Physical" <->
  damage_type_id Demo.buster_row = 128%Z.
Proof.
  apply (damage_type_values (H := Demo.runtime) Demo.config Demo.response
           default_party_damage_ceiling default_tank_damage_ceiling
           Demo.built Demo.buster_row
           ltac:(vm_compute; reflexivity) ltac:(vm_compute; tauto)).
Defined.
